(** * LifeGame: Conway's Game of Life on a double-buffered grid

    A shallow embedding of [LifeGame.py] (class [LifeGame]) and the
    verification of its grid store and generation engine.

    Modelling choices.
    - Python integers are [Z]; a Python list is a [list], indexed with the
      semantics of [list.__getitem__] / [list.__setitem__]: an index [i]
      with [-len <= i < 0] designates position [len + i], and any index
      outside [-len, len) raises [IndexError].
    - Code that may raise returns a [result]; [get_cell] is the only place
      with an exception handler (a bare [except:]).
    - [create_grid] allocates a fresh list per row and is called once per
      buffer, so no two cells share storage: in-place assignment
      [self.grids[g][r][c] = v] is modelled by rebuilding the three nested
      lists around the assigned position.
    - The [random] module is a stream of bits carried in the object state;
      [random.randint(0, 1)] takes its head.
    - pygame (window, drawing, event queue, clock) is outside the model:
      events are given as a list, and [draw_grid] returns the frame it
      would draw. *)

From Stdlib Require Import ZArith Lia.
From stdpp Require Import base list strings.

Local Open Scope Z_scope.

(** ** Exceptions *)

Inductive exn : Type :=
| IndexError
| SystemExit.

Inductive result (A : Type) : Type :=
| Ok (a : A)
| Raise (e : exn).

Arguments Ok {A} a.
Arguments Raise {A} e.

#[global] Instance result_ret : MRet result := fun A a => Ok a.

#[global] Instance result_bind : MBind result := fun A B k m =>
  match m with
  | Ok a => k a
  | Raise e => Raise e
  end.

(** ** Python lists *)

Module Py.

(** Position designated by index [i] in a sequence of length [n]. *)
Definition norm (n i : Z) : option nat :=
  if decide (0 <= i < n) then Some (Z.to_nat i)
  else if decide (- n <= i < 0) then Some (Z.to_nat (n + i))
  else None.

Definition len {A} (l : list A) : Z := Z.of_nat (length l).

(** [l[i]] *)
Definition getitem {A} (l : list A) (i : Z) : result A :=
  match norm (len l) i with
  | Some k =>
      match l !! k with
      | Some x => Ok x
      | None => Raise IndexError
      end
  | None => Raise IndexError
  end.

(** [l[i] = x] *)
Definition setitem {A} (l : list A) (i : Z) (x : A) : result (list A) :=
  match norm (len l) i with
  | Some k => Ok (<[k:=x]> l)
  | None => Raise IndexError
  end.

(** [range(n)] *)
Definition range (n : Z) : list Z := Z.of_nat <$> seq 0 (Z.to_nat n).

(** [for x in xs: body], threading the mutated state. *)
Fixpoint for_each {St} (xs : list Z) (body : Z -> St -> result St) (s : St)
  : result St :=
  match xs with
  | [] => Ok s
  | x :: xs' => s' ← body x s; for_each xs' body s'
  end.

End Py.

(** ** The game object *)

Abbreviation grid := (list (list Z)).

Record LifeGame : Type := {
  num_rows : Z;
  num_cols : Z;
  grids : list grid;
  active_grid : Z;
  paused : bool;
  game_over : bool;
  rng : nat -> bool
}.

Definition with_grids (gs : list grid) (st : LifeGame) : LifeGame :=
  {| num_rows := num_rows st; num_cols := num_cols st; grids := gs;
     active_grid := active_grid st; paused := paused st;
     game_over := game_over st; rng := rng st |}.

Definition with_active_grid (a : Z) (st : LifeGame) : LifeGame :=
  {| num_rows := num_rows st; num_cols := num_cols st; grids := grids st;
     active_grid := a; paused := paused st;
     game_over := game_over st; rng := rng st |}.

Definition with_paused (b : bool) (st : LifeGame) : LifeGame :=
  {| num_rows := num_rows st; num_cols := num_cols st; grids := grids st;
     active_grid := active_grid st; paused := b;
     game_over := game_over st; rng := rng st |}.

Definition with_game_over (b : bool) (st : LifeGame) : LifeGame :=
  {| num_rows := num_rows st; num_cols := num_cols st; grids := grids st;
     active_grid := active_grid st; paused := paused st;
     game_over := b; rng := rng st |}.

Definition with_rng (g : nat -> bool) (st : LifeGame) : LifeGame :=
  {| num_rows := num_rows st; num_cols := num_cols st; grids := grids st;
     active_grid := active_grid st; paused := paused st;
     game_over := game_over st; rng := g |}.

(** [random.randint(0, 1)] *)
Definition randint01 (st : LifeGame) : Z * LifeGame :=
  (Z.b2z (rng st 0%nat), with_rng (fun n => rng st (S n)) st).

(** [create_grid] (local to [init_grids]): [num_rows] fresh rows
    [[0] * num_cols]. *)
Definition create_grid (st : LifeGame) : grid :=
  (fun _ => replicate (Z.to_nat (num_cols st)) 0) <$> Py.range (num_rows st).

Definition init_grids (st : LifeGame) : LifeGame :=
  let st := with_grids (grids st ++ [create_grid st]) st in
  with_grids (grids st ++ [create_grid st]) st.

(** [self.grids[g][r][c] = v] *)
Definition store_cell (gs : list grid) (g r c v : Z) : result (list grid) :=
  buf ← Py.getitem gs g;
  row ← Py.getitem buf r;
  row' ← Py.setitem row c v;
  buf' ← Py.setitem buf r row';
  Py.setitem gs g buf'.

(** [self.grids[g][r][c]] *)
Definition load_cell (gs : list grid) (g r c : Z) : result Z :=
  buf ← Py.getitem gs g;
  row ← Py.getitem buf r;
  Py.getitem row c.

Definition set_grid (value : option Z) (grid : Z) (st : LifeGame)
  : result LifeGame :=
  Py.for_each (Py.range (num_rows st)) (fun r st =>
    Py.for_each (Py.range (num_cols st)) (fun c st =>
      let '(cell_value, st) :=
        match value with
        | None => randint01 st
        | Some v => (v, st)
        end in
      gs ← store_cell (grids st) grid r c cell_value;
      Ok (with_grids gs st)) st) st.

(** [__init__]: the grid dimensions [int(screen_width / cell_size)] and
    [int(screen_height / cell_size)] are taken as given. *)
Definition init (rows cols : Z) (g : nat -> bool) : result LifeGame :=
  let st := {| num_rows := rows; num_cols := cols; grids := [];
               active_grid := 0; paused := false; game_over := false;
               rng := g |} in
  st ← set_grid None 0 (init_grids st);
  Ok (with_game_over false (with_paused false st)).

(** [draw_grid]: for every column and row, whether the cell is drawn in
    the alive colour. *)
Definition draw_grid (st : LifeGame) : result (list (Z * Z * bool)) :=
  Py.for_each (Py.range (num_cols st)) (fun c frame =>
    Py.for_each (Py.range (num_rows st)) (fun r frame =>
      v ← load_cell (grids st) (active_grid st) r c;
      Ok (frame ++ [(c, r, v =? 1)])) frame) [].

Definition get_cell (row_num col_num : Z) (st : LifeGame) : Z :=
  match load_cell (grids st) (active_grid st) row_num col_num with
  | Ok cell_value => cell_value
  | Raise _ => 0
  end.

Definition find_alive_neighbors (a b c d e f g h : Z) : Z :=
  a + b + c + d + e + f + g + h.

Definition num_alive_neighbors (row_index col_index : Z) (st : LifeGame) : Z :=
  find_alive_neighbors
    (get_cell (row_index - 1) (col_index - 1) st)
    (get_cell (row_index - 1) col_index st)
    (get_cell (row_index - 1) (col_index + 1) st)
    (get_cell row_index (col_index - 1) st)
    (get_cell row_index (col_index + 1) st)
    (get_cell (row_index + 1) (col_index - 1) st)
    (get_cell (row_index + 1) (col_index + 1) st)
    (get_cell (row_index + 1) col_index st).

(** The rules for life and death, on the cell's state [cur] and its
    number of alive neighbours [n]; the final [cur] is the fall-through
    [return self.grids[self.active_grid][row_index][col_index]]. *)
Definition life_rule (cur n : Z) : Z :=
  if cur =? 1 then
    if n >? 3 then 0
    else if n <? 2 then 0
    else if (n =? 2) || (n =? 3) then 1
    else cur
  else if cur =? 0 then
    if n =? 3 then 1 else cur
  else cur.

(** The cell is read with a plain index expression (no handler); the
    reads of one call all see the same state, so it is bound once. *)
Definition check_cell_neighbors (row_index col_index : Z) (st : LifeGame)
  : result Z :=
  let n := num_alive_neighbors row_index col_index st in
  cur ← load_cell (grids st) (active_grid st) row_index col_index;
  Ok (life_rule cur n).

Definition inactive_grid (st : LifeGame) : Z := (active_grid st + 1) `mod` 2.

Definition update_generation (st : LifeGame) : result LifeGame :=
  st ← set_grid (Some 0) (inactive_grid st) st;
  st ← Py.for_each (Py.range (num_rows st - 1)) (fun r st =>
         Py.for_each (Py.range (num_cols st - 1)) (fun c st =>
           next_gen_state ← check_cell_neighbors r c st;
           gs ← store_cell (grids st) (inactive_grid st) r c next_gen_state;
           Ok (with_grids gs st)) st) st;
  Ok (with_active_grid (inactive_grid st) st).

(** ** Events *)

Inductive event : Type :=
| KEYDOWN (unicode : string)
| QUIT
| OTHER.

(** Body of the loop of [handle_events] ([print] calls left out). *)
Definition handle_event (ev : event) (st : LifeGame) : result LifeGame :=
  match ev with
  | KEYDOWN unicode =>
      if decide (unicode = "s") then
        Ok (with_paused (negb (paused st)) st)
      else if decide (unicode = "r") then
        let st := with_active_grid 0 st in
        st ← set_grid None (active_grid st) st;
        st ← set_grid (Some 0) (inactive_grid st) st;
        _ ← draw_grid st;
        Ok st
      else if decide (unicode = "q") then
        Ok (with_game_over true st)
      else Ok st
  | QUIT => Raise SystemExit
  | OTHER => Ok st
  end.

Fixpoint handle_events (evs : list event) (st : LifeGame) : result LifeGame :=
  match evs with
  | [] => Ok st
  | ev :: evs' => st' ← handle_event ev st; handle_events evs' st'
  end.

(** One iteration of the loop of [run] after the [game_over] test,
    without the clock. *)
Definition tick (evs : list event) (st : LifeGame) : result LifeGame :=
  st ← handle_events evs st;
  if paused st then Ok st
  else
    st ← update_generation st;
    _ ← draw_grid st;
    Ok st.

(** [run], on the batches of events that successive calls of
    [pygame.event.get()] deliver: the loop either returns (it saw
    [game_over]) or has used up the batches given and is still looping. *)
Inductive run_state : Type :=
| Returned (st : LifeGame)
| Looping (st : LifeGame).

Fixpoint run (batches : list (list event)) (st : LifeGame) : result run_state :=
  if game_over st then Ok (Returned st)
  else
    match batches with
    | [] => Ok (Looping st)
    | evs :: batches' => st' ← tick evs st; run batches' st'
    end.

(** ** Specification vocabulary *)

Definition bit (v : Z) : Prop := v = 0 ∨ v = 1.

(** Replacement of the cell at positions [kg], [kr], [kc]. *)
Definition upd (gs : list grid) (kg kr kc : nat) (v : Z) : list grid :=
  alter (alter (<[kc:=v]>) kr) kg gs.

(** The cell of buffer [g] at coordinates [(r, c)], all three taken as
    positions (no negative indexing). *)
Definition cell_at (gs : list grid) (g r c : Z) : option Z :=
  buf ← gs !! Z.to_nat g; row ← buf !! Z.to_nat r; row !! Z.to_nat c.

Definition grid_shape (R C : Z) (buf : grid) : Prop :=
  Py.len buf = R ∧ Forall (λ row, Py.len row = C) buf.

Definition grids_shape (R C : Z) (gs : list grid) : Prop :=
  length gs = 2%nat ∧ Forall (grid_shape R C) gs.

Definition grids_binary (gs : list grid) : Prop :=
  Forall (Forall (Forall bit)) gs.

(** Two buffers of [num_rows] rows of [num_cols] cells, and an active
    index that selects one of them. *)
Definition shaped (st : LifeGame) : Prop :=
  grids_shape (num_rows st) (num_cols st) (grids st) ∧
  (active_grid st = 0 ∨ active_grid st = 1).

Definition binary (st : LifeGame) : Prop := grids_binary (grids st).

Definition wf (st : LifeGame) : Prop := shaped st ∧ binary st.

(** Everything but the buffers and the random stream. *)
Definition same_frame (s st : LifeGame) : Prop :=
  num_rows s = num_rows st ∧ num_cols s = num_cols st ∧
  active_grid s = active_grid st ∧ paused s = paused st ∧
  game_over s = game_over st.

Definition in_grid (st : LifeGame) (r c : Z) : Prop :=
  0 <= r < num_rows st ∧ 0 <= c < num_cols st.

(** Every cell of buffer [g] is dead. *)
Definition buffer_dead (st : LifeGame) (g : Z) : Prop :=
  ∀ r c, in_grid st r c → cell_at (grids st) g r c = Some 0.

(** States reachable from construction through the operations of the
    class; a literal passed to [set_grid] is 0 or 1. *)
Inductive reachable : LifeGame → Prop :=
| reach_init rows cols g st :
    0 <= rows → 0 <= cols → init rows cols g = Ok st → reachable st
| reach_set_grid value grid st st' :
    reachable st →
    (value = None ∨ value = Some 0 ∨ value = Some 1) →
    set_grid value grid st = Ok st' → reachable st'
| reach_update_generation st st' :
    reachable st → update_generation st = Ok st' → reachable st'
| reach_handle_events evs st st' :
    reachable st → handle_events evs st = Ok st' → reachable st'.

(** The value written by the [k]-th assignment of [set_grid], and the
    random stream after [k] assignments. *)
Definition fill_value (value : option Z) (g : nat → bool) (k : nat) : Z :=
  match value with
  | None => Z.b2z (g k)
  | Some v => v
  end.

Definition rng_after (value : option Z) (g : nat → bool) (k : nat)
  : nat → bool :=
  match value with
  | None => λ n, g (n + k)%nat
  | Some _ => g
  end.

(** Cells already assigned by a row-major double loop over
    [0, _) × [0, W) that has completed [i] rows and [j] cells of row [i]. *)
Definition written (W i j r c : Z) : Prop :=
  (r < i ∧ c < W) ∨ (r = i ∧ c < j).

(** The position an index designates in a sequence of length [n], as an
    integer. *)
Definition wrap (n i : Z) : option Z :=
  if decide (0 <= i < n) then Some i
  else if decide (- n <= i < 0) then Some (n + i)
  else None.

(** The active buffer's cell at in-range coordinates (0 elsewhere). *)
Definition active_cell (st : LifeGame) (r c : Z) : Z :=
  default 0 (cell_at (grids st) (active_grid st) r c).

(** A read that treats every position outside
    [0, num_rows) × [0, num_cols) as dead. *)
Definition read_dead_outside (st : LifeGame) (r c : Z) : Z :=
  if decide (in_grid st r c) then active_cell st r c else 0.

(** Sum over the Moore neighbourhood of reads that treat every position
    outside the grid as dead. *)
Definition moore_sum_dead_outside (st : LifeGame) (r c : Z) : Z :=
  read_dead_outside st (r - 1) (c - 1) + read_dead_outside st (r - 1) c +
  read_dead_outside st (r - 1) (c + 1) + read_dead_outside st r (c - 1) +
  read_dead_outside st r (c + 1) + read_dead_outside st (r + 1) (c - 1) +
  read_dead_outside st (r + 1) (c + 1) + read_dead_outside st (r + 1) c.

(** The three-cell oscillator centred at [(r0, c0)]. *)
Inductive orientation : Type :=
| Vertical
| Horizontal.

Definition turn (o : orientation) : orientation :=
  match o with
  | Vertical => Horizontal
  | Horizontal => Vertical
  end.

Definition blinker (o : orientation) (r0 c0 r c : Z) : Z :=
  match o with
  | Vertical =>
      if (c =? c0) && (r0 - 1 <=? r) && (r <=? r0 + 1) then 1 else 0
  | Horizontal =>
      if (r =? r0) && (c0 - 1 <=? c) && (c <=? c0 + 1) then 1 else 0
  end.

(** The active buffer holds exactly the pattern [f]. *)
Definition active_is (st : LifeGame) (f : Z → Z → Z) : Prop :=
  ∀ r c, in_grid st r c →
    cell_at (grids st) (active_grid st) r c = Some (f r c).

(** The 3 × 3 game right after construction when every random draw
    is 1: buffer 0 entirely alive, buffer 1 entirely dead. *)
Definition crowded : LifeGame :=
  {| num_rows := 3; num_cols := 3;
     grids := [ [[1; 1; 1]; [1; 1; 1]; [1; 1; 1]];
                [[0; 0; 0]; [0; 0; 0]; [0; 0; 0]] ];
     active_grid := 0; paused := false; game_over := false;
     rng := λ _, true |}.

(** A single live cell at [(r0, c0)]. *)
Definition lone (r0 c0 r c : Z) : Z :=
  if (r =? r0) && (c =? c0) then 1 else 0.

(** Whether index [i] designates position [a] in a sequence of length
    [n]. *)
Definition hit (n a i : Z) : bool :=
  match wrap n i with
  | Some k => k =? a
  | None => false
  end.

(** Concrete states: [crowded] with its dead buffer active; a 3 × 3 game
    with one live cell in the middle; a 6 × 6 game with a vertical
    blinker centred at [(2, 2)]. *)
Definition barren : LifeGame := with_active_grid 1 crowded.

Definition lonely : LifeGame :=
  {| num_rows := 3; num_cols := 3;
     grids := [ [[0; 0; 0]; [0; 1; 0]; [0; 0; 0]];
                [[0; 0; 0]; [0; 0; 0]; [0; 0; 0]] ];
     active_grid := 0; paused := false; game_over := false;
     rng := λ _, true |}.

Definition blinking : LifeGame :=
  {| num_rows := 6; num_cols := 6;
     grids := [ [[0; 0; 0; 0; 0; 0]; [0; 0; 1; 0; 0; 0]; [0; 0; 1; 0; 0; 0];
                 [0; 0; 1; 0; 0; 0]; [0; 0; 0; 0; 0; 0]; [0; 0; 0; 0; 0; 0]];
                [[0; 0; 0; 0; 0; 0]; [0; 0; 0; 0; 0; 0]; [0; 0; 0; 0; 0; 0];
                 [0; 0; 0; 0; 0; 0]; [0; 0; 0; 0; 0; 0]; [0; 0; 0; 0; 0; 0]] ];
     active_grid := 0; paused := false; game_over := false;
     rng := λ _, true |}.

(** The last row and the last column of the active buffer are dead. *)
Definition bordered (st : LifeGame) : Prop :=
  ∀ r c, in_grid st r c →
    r = num_rows st - 1 ∨ c = num_cols st - 1 →
    cell_at (grids st) (active_grid st) r c = Some 0.

(** One generation of Life on the grid with everything outside it dead,
    computed for the cells off the last row and the last column. *)
Definition life_step (st : LifeGame) (r c : Z) : Z :=
  if decide (r < num_rows st - 1 ∧ c < num_cols st - 1)
  then life_rule (active_cell st r c) (moore_sum_dead_outside st r c)
  else 0.

(** The 2 × 2 block with top-left corner [(r0, c0)]. *)
Definition block (r0 c0 r c : Z) : Z :=
  if (r0 <=? r) && (r <=? r0 + 1) && (c0 <=? c) && (c <=? c0 + 1)
  then 1 else 0.

(** The frame of the active buffer, column by column. *)
Definition frame_of (st : LifeGame) : list (Z * Z * bool) :=
  c ← Py.range (num_cols st);
  (λ r, (c, r, active_cell st r c =? 1)) <$> Py.range (num_rows st).

#[global] Instance event_eq_dec : EqDecision event.
Proof. solve_decision. Defined.

(** Number of presses of the key [u] among the events. *)
Definition key_count (u : string) (evs : list event) : nat :=
  length (filter (λ ev, ev = KEYDOWN u) evs).

(** A 4 × 4 game with a block at [(1, 1)], and [crowded] with nothing in
    its buffers. *)
Definition boxed : LifeGame :=
  {| num_rows := 4; num_cols := 4;
     grids := [ [[0; 0; 0; 0]; [0; 1; 1; 0]; [0; 1; 1; 0]; [0; 0; 0; 0]];
                [[0; 0; 0; 0]; [0; 0; 0; 0]; [0; 0; 0; 0]; [0; 0; 0; 0]] ];
     active_grid := 0; paused := false; game_over := false;
     rng := λ _, true |}.

Definition gridless : LifeGame :=
  {| num_rows := 0; num_cols := 3; grids := [[]; []];
     active_grid := 0; paused := false; game_over := false;
     rng := λ _, true |}.

(** One generation of Life on the unbounded plane, for a pattern given
    as a function. *)
Definition plane_step (f : Z → Z → Z) (r c : Z) : Z :=
  life_rule (f r c)
    (find_alive_neighbors
       (f (r - 1) (c - 1)) (f (r - 1) c) (f (r - 1) (c + 1))
       (f r (c - 1)) (f r (c + 1))
       (f (r + 1) (c - 1)) (f (r + 1) (c + 1)) (f (r + 1) c)).

(** The pattern is dead everywhere but on rows [0, num_rows - 1) and
    columns [0, num_cols - 1). *)
Definition off_border (st : LifeGame) (f : Z → Z → Z) : Prop :=
  ∀ r c, ¬ (0 <= r < num_rows st - 1 ∧ 0 <= c < num_cols st - 1) →
         f r c = 0.

(** A game of one row, all alive. *)
Definition strip : LifeGame :=
  {| num_rows := 1; num_cols := 3;
     grids := [ [[1; 1; 1]]; [[0; 0; 0]] ];
     active_grid := 0; paused := false; game_over := false;
     rng := λ _, true |}.

(** ** Python list indexing *)

Module PyFacts.
Import Py.

Lemma norm_nonneg n i : 0 <= i < n → norm n i = Some (Z.to_nat i).
Proof. intros ?. unfold norm. by rewrite decide_True. Qed.

Lemma norm_neg n i : - n <= i < 0 → norm n i = Some (Z.to_nat (n + i)).
Proof.
  intros ?. unfold norm. rewrite decide_False by lia. by rewrite decide_True.
Qed.

Lemma norm_out n i : i < - n ∨ n <= i → norm n i = None.
Proof. intros ?. unfold norm. rewrite !decide_False by lia. done. Qed.

Lemma norm_Some n i k : norm n i = Some k → Z.of_nat k < n.
Proof. unfold norm. repeat case_decide; intros; simplify_eq; lia. Qed.

Lemma getitem_Ok {A} (l : list A) i x :
  getitem l i = Ok x ↔ ∃ k, norm (len l) i = Some k ∧ l !! k = Some x.
Proof.
  unfold getitem. split.
  - destruct (norm (len l) i) as [k|]; [|done].
    destruct (l !! k) eqn:E; [|done]. intros; simplify_eq; eauto.
  - intros (k & -> & ->). done.
Qed.

Lemma getitem_pos {A} (l : list A) i x :
  0 <= i → l !! Z.to_nat i = Some x → getitem l i = Ok x.
Proof.
  intros Hi Hl. apply getitem_Ok. exists (Z.to_nat i). split; [|done].
  apply norm_nonneg. apply lookup_lt_Some in Hl. unfold len. lia.
Qed.

Lemma setitem_Ok {A} (l : list A) i x l' :
  setitem l i x = Ok l' ↔ ∃ k, norm (len l) i = Some k ∧ l' = <[k:=x]> l.
Proof.
  unfold setitem. destruct (norm (len l) i) as [k|]; split.
  - intros; simplify_eq; eauto.
  - intros (? & ? & ?); simplify_eq; done.
  - done.
  - intros (? & ? & ?); done.
Qed.

Lemma len_insert {A} (l : list A) k x : len (<[k:=x]> l) = len l.
Proof. unfold len. by rewrite length_insert. Qed.

Lemma len_alter {A} (f : A → A) (l : list A) k : len (alter f k l) = len l.
Proof. unfold len. by rewrite length_alter. Qed.

Lemma for_each_preserves {St} (I : St → Prop) xs body (s s' : St) :
  (∀ x s s', I s → body x s = Ok s' → I s') →
  I s → for_each xs body s = Ok s' → I s'.
Proof.
  intros Hbody. revert s. induction xs as [|x xs IH]; simpl; intros s Hs Hrun.
  - by simplify_eq.
  - destruct (body x s) as [s1|] eqn:E; simpl in Hrun; [|done].
    eapply IH; [|done]. eauto.
Qed.

Lemma for_each_seq_rule {St} (I : Z → St → Prop) body k : ∀ (a : nat) (s : St),
  I (Z.of_nat a) s →
  (∀ i s, Z.of_nat a <= i < Z.of_nat (a + k) → I i s →
          ∃ s', body i s = Ok s' ∧ I (i + 1) s') →
  ∃ s', for_each (Z.of_nat <$> seq a k) body s = Ok s' ∧ I (Z.of_nat (a + k)) s'.
Proof.
  induction k as [|k IH]; intros a s Hs Hbody; simpl.
  - exists s. split; [done|]. by rewrite Nat.add_0_r.
  - destruct (Hbody (Z.of_nat a) s) as (s1 & E1 & H1); [lia|done|].
    rewrite E1. simpl.
    destruct (IH (S a) s1) as (s2 & E2 & H2).
    + by replace (Z.of_nat (S a)) with (Z.of_nat a + 1) by lia.
    + intros i s0 ? ?. apply Hbody; [lia|done].
    + exists s2. split; [done|]. by replace (a + S k)%nat with (S a + k)%nat by lia.
Qed.

(** Loop rule: an invariant indexed by the number of completed
    iterations, which every iteration re-establishes without raising. *)
Lemma for_each_range_rule {St} (I : Z → St → Prop) n body (s : St) :
  I 0 s →
  (∀ i s, 0 <= i < n → I i s → ∃ s', body i s = Ok s' ∧ I (i + 1) s') →
  ∃ s', for_each (range n) body s = Ok s' ∧ I (Z.max 0 n) s'.
Proof.
  intros Hs Hbody. unfold range.
  destruct (for_each_seq_rule I body (Z.to_nat n) 0%nat s) as (s' & E & H).
  - done.
  - intros i s0 ? ?. apply Hbody; [lia|done].
  - exists s'. split; [done|]. by replace (Z.max 0 n) with (Z.of_nat (0 + Z.to_nat n)) by lia.
Qed.

End PyFacts.

(** ** Reading and writing one cell *)

Section cells.
Import Py PyFacts.

Lemma insert_as_alter {A} (f : A → A) (l : list A) k x :
  l !! k = Some x → <[k:=f x]> l = alter f k l.
Proof.
  intros Hk. apply list_eq. intros j.
  rewrite list_lookup_insert, list_lookup_alter.
  destruct (decide (k = j)) as [->|].
  - rewrite Hk. simpl. rewrite decide_True; [done|].
    split; [done|]. by apply lookup_lt_Some in Hk.
  - rewrite decide_False; [done|]. intros [? _]. done.
Qed.

Lemma store_cell_Ok gs g r c v gs' :
  store_cell gs g r c v = Ok gs' →
  ∃ kg kr kc buf row,
    norm (len gs) g = Some kg ∧ gs !! kg = Some buf ∧
    norm (len buf) r = Some kr ∧ buf !! kr = Some row ∧
    norm (len row) c = Some kc ∧ gs' = upd gs kg kr kc v.
Proof.
  unfold store_cell. intros H.
  destruct (getitem gs g) as [buf|] eqn:Eg; simpl in H; [|done].
  destruct (getitem buf r) as [row|] eqn:Er; simpl in H; [|done].
  destruct (setitem row c v) as [row'|] eqn:Ec; simpl in H; [|done].
  destruct (setitem buf r row') as [buf'|] eqn:Er'; simpl in H; [|done].
  apply getitem_Ok in Eg as (kg & Hkg & Hbuf).
  apply getitem_Ok in Er as (kr & Hkr & Hrow).
  apply setitem_Ok in Ec as (kc & Hkc & ->).
  apply setitem_Ok in Er' as (kr' & Hkr' & ->).
  apply setitem_Ok in H as (kg' & Hkg' & ->).
  simplify_eq. exists kg, kr, kc, buf, row. repeat split; try done.
  unfold upd.
  rewrite <- (insert_as_alter (alter (<[kc:=v]>) kr) gs kg buf) by done.
  by rewrite <- (insert_as_alter (<[kc:=v]>) buf kr row) by done.
Qed.

Lemma grids_shape_lookup R C gs (k : nat) :
  grids_shape R C gs → (k < 2)%nat → ∃ buf, gs !! k = Some buf ∧ grid_shape R C buf.
Proof.
  intros [Hlen Hall] Hk.
  destruct (lookup_lt_is_Some_2 gs k) as [buf Hbuf]; [lia|].
  exists buf. split; [done|]. by eapply Forall_lookup_1.
Qed.

Lemma grid_shape_lookup R C buf r :
  grid_shape R C buf → 0 <= r < R →
  ∃ row, buf !! Z.to_nat r = Some row ∧ len row = C.
Proof.
  intros [Hlen Hall] Hr. unfold len in Hlen.
  destruct (lookup_lt_is_Some_2 buf (Z.to_nat r)) as [row Hrow]; [lia|].
  exists row. split; [done|]. by apply (Forall_lookup_1 _ _ _ _ Hall Hrow).
Qed.

Lemma row_lookup {A} (row : list A) C c :
  len row = C → 0 <= c < C → ∃ v, row !! Z.to_nat c = Some v.
Proof.
  intros Hlen Hc. unfold len in Hlen.
  destruct (lookup_lt_is_Some_2 row (Z.to_nat c)) as [v Hv]; [lia|]. eauto.
Qed.

(** In a shaped pair of buffers every in-range cell exists. *)
Lemma cell_at_is_Some R C gs g r c :
  grids_shape R C gs → (g = 0 ∨ g = 1) → 0 <= r < R → 0 <= c < C →
  ∃ v, cell_at gs g r c = Some v.
Proof.
  intros Hs Hg Hr Hc.
  destruct (grids_shape_lookup R C gs (Z.to_nat g) Hs) as (buf & Hbuf & Hb); [lia|].
  destruct (grid_shape_lookup R C buf r Hb Hr) as (row & Hrow & Hl).
  destruct (row_lookup row C c Hl Hc) as (v & Hv).
  exists v. unfold cell_at. rewrite Hbuf. simpl. rewrite Hrow. simpl. done.
Qed.

Lemma load_cell_in_range R C gs g r c :
  grids_shape R C gs → (g = 0 ∨ g = 1) → 0 <= r < R → 0 <= c < C →
  ∃ v, cell_at gs g r c = Some v ∧ load_cell gs g r c = Ok v.
Proof.
  intros Hs Hg Hr Hc.
  destruct (grids_shape_lookup R C gs (Z.to_nat g) Hs) as (buf & Hbuf & Hb); [lia|].
  destruct (grid_shape_lookup R C buf r Hb Hr) as (row & Hrow & Hl).
  destruct (row_lookup row C c Hl Hc) as (v & Hv).
  exists v. unfold cell_at, load_cell.
  rewrite Hbuf. simpl. rewrite Hrow. simpl. split; [done|].
  rewrite (getitem_pos gs g buf) by (done || lia). simpl.
  rewrite (getitem_pos buf r row) by (done || lia). simpl.
  apply getitem_pos; [lia|done].
Qed.

Lemma store_cell_in_range R C gs g r c v :
  grids_shape R C gs → (g = 0 ∨ g = 1) → 0 <= r < R → 0 <= c < C →
  store_cell gs g r c v = Ok (upd gs (Z.to_nat g) (Z.to_nat r) (Z.to_nat c) v).
Proof.
  intros Hs Hg Hr Hc.
  destruct (grids_shape_lookup R C gs (Z.to_nat g) Hs) as (buf & Hbuf & Hb); [lia|].
  destruct (grid_shape_lookup R C buf r Hb Hr) as (row & Hrow & Hl).
  destruct Hs as [Hlen _]. destruct Hb as [Hblen _].
  unfold store_cell.
  rewrite (getitem_pos gs g buf) by (done || lia). simpl.
  rewrite (getitem_pos buf r row) by (done || lia). simpl.
  unfold setitem.
  rewrite (norm_nonneg (len row) c) by lia. simpl.
  rewrite (norm_nonneg (len buf) r) by lia. simpl.
  rewrite (norm_nonneg (len gs) g) by (unfold len; lia).
  f_equal. unfold upd.
  rewrite <- (insert_as_alter (alter (<[Z.to_nat c:=v]>) (Z.to_nat r)) gs _ buf) by done.
  by rewrite <- (insert_as_alter (<[Z.to_nat c:=v]>) buf _ row) by done.
Qed.

Lemma upd_shape R C gs kg kr kc v :
  grids_shape R C gs → grids_shape R C (upd gs kg kr kc v).
Proof.
  intros [Hlen Hall]. unfold upd. split.
  - by rewrite length_alter.
  - apply Forall_alter; [done|]. intros buf _ [Hbl Hrows]. split.
    + by rewrite len_alter.
    + apply Forall_alter; [done|]. intros row _ Hrow. by rewrite len_insert.
Qed.

Lemma upd_binary gs kg kr kc v :
  bit v → grids_binary gs → grids_binary (upd gs kg kr kc v).
Proof.
  intros Hv Hall. unfold upd, grids_binary.
  apply Forall_alter; [done|]. intros buf _ Hbuf.
  apply Forall_alter; [done|]. intros row _ Hrow.
  by apply Forall_insert.
Qed.

Lemma upd_other_buffer gs kg kr kc v (k : nat) :
  kg ≠ k → upd gs kg kr kc v !! k = gs !! k.
Proof. intros ?. unfold upd. by rewrite list_lookup_alter_ne. Qed.

Lemma cell_at_upd_eq gs g r c v w :
  0 <= g → 0 <= r → 0 <= c → cell_at gs g r c = Some w →
  cell_at (upd gs (Z.to_nat g) (Z.to_nat r) (Z.to_nat c) v) g r c = Some v.
Proof.
  unfold cell_at, upd. intros _ _ _ H.
  rewrite list_lookup_alter_eq.
  destruct (gs !! Z.to_nat g) as [buf|]; simpl in *; [|done].
  rewrite list_lookup_alter_eq.
  destruct (buf !! Z.to_nat r) as [row|]; simpl in *; [|done].
  apply list_lookup_insert_eq. by apply lookup_lt_Some in H.
Qed.

Lemma cell_at_upd_ne gs g r c v g' r' c' :
  0 <= g → 0 <= r → 0 <= c → 0 <= g' → 0 <= r' → 0 <= c' →
  ¬ (g' = g ∧ r' = r ∧ c' = c) →
  cell_at (upd gs (Z.to_nat g) (Z.to_nat r) (Z.to_nat c) v) g' r' c'
  = cell_at gs g' r' c'.
Proof.
  unfold cell_at, upd. intros ? ? ? ? ? ? Hne.
  rewrite list_lookup_alter.
  destruct (decide (Z.to_nat g = Z.to_nat g')) as [Eg|]; [|done].
  rewrite Eg.
  destruct (gs !! Z.to_nat g') as [buf|]; simpl; [|done].
  rewrite list_lookup_alter.
  destruct (decide (Z.to_nat r = Z.to_nat r')) as [Er|]; [|done].
  rewrite Er.
  destruct (buf !! Z.to_nat r') as [row|]; simpl; [|done].
  apply list_lookup_insert_ne. lia.
Qed.

End cells.

(** ** The invariant is preserved by every operation *)

Section preservation.
Import Py PyFacts.

Lemma bit_b2z b : bit (Z.b2z b).
Proof. destruct b; [by right|by left]. Qed.

Lemma bit_life_rule cur n : bit cur → bit (life_rule cur n).
Proof.
  intros Hcur. unfold life_rule.
  repeat match goal with |- context [if ?b then _ else _] => destruct b end;
    first [done | by left | by right].
Qed.

Lemma load_cell_Ok gs g r c v :
  load_cell gs g r c = Ok v →
  ∃ kg kr kc buf row,
    norm (len gs) g = Some kg ∧ gs !! kg = Some buf ∧
    norm (len buf) r = Some kr ∧ buf !! kr = Some row ∧
    norm (len row) c = Some kc ∧ row !! kc = Some v.
Proof.
  unfold load_cell. intros H.
  destruct (getitem gs g) as [buf|] eqn:Eg; simpl in H; [|done].
  destruct (getitem buf r) as [row|] eqn:Er; simpl in H; [|done].
  apply getitem_Ok in Eg as (kg & Hkg & Hbuf).
  apply getitem_Ok in Er as (kr & Hkr & Hrow).
  apply getitem_Ok in H as (kc & Hkc & Hv).
  exists kg, kr, kc, buf, row. done.
Qed.

Lemma load_cell_bit gs g r c v :
  grids_binary gs → load_cell gs g r c = Ok v → bit v.
Proof.
  intros Hb (kg & kr & kc & buf & row & _ & Hbuf & _ & Hrow & _ & Hv)%load_cell_Ok.
  pose proof (Forall_lookup_1 _ _ _ _ Hb Hbuf) as H1.
  pose proof (Forall_lookup_1 _ _ _ _ H1 Hrow) as H2.
  exact (Forall_lookup_1 _ _ _ _ H2 Hv).
Qed.

Lemma check_cell_neighbors_bit r c st v :
  binary st → check_cell_neighbors r c st = Ok v → bit v.
Proof.
  unfold check_cell_neighbors. intros Hb H.
  destruct (load_cell _ _ r c) as [cur|] eqn:E; simpl in H; [|done].
  simplify_eq. apply bit_life_rule. by eapply load_cell_bit.
Qed.

Lemma inactive_grid_range st : inactive_grid st = 0 ∨ inactive_grid st = 1.
Proof.
  unfold inactive_grid.
  pose proof (Z.mod_pos_bound (active_grid st + 1) 2). lia.
Qed.

Lemma inactive_grid_flip st :
  (active_grid st = 0 ∨ active_grid st = 1) →
  inactive_grid st = 1 - active_grid st.
Proof. unfold inactive_grid. intros [->| ->]; reflexivity. Qed.

Lemma wf_store_cell st g r c v gs' :
  wf st → bit v → store_cell (grids st) g r c v = Ok gs' →
  wf (with_grids gs' st).
Proof.
  intros [[Hs Ha] Hb] Hv
    (kg & kr & kc & _ & _ & _ & _ & _ & _ & _ & ->)%store_cell_Ok.
  split; [split; [by apply upd_shape|done]|by apply upd_binary].
Qed.

Lemma wf_with_rng g st : wf st → wf (with_rng g st).
Proof. intros [[Hs Ha] Hb]. done. Qed.

Lemma wf_with_paused b st : wf st → wf (with_paused b st).
Proof. intros [[Hs Ha] Hb]. done. Qed.

Lemma wf_with_game_over b st : wf st → wf (with_game_over b st).
Proof. intros [[Hs Ha] Hb]. done. Qed.

Lemma wf_with_active_grid a st :
  (a = 0 ∨ a = 1) → wf st → wf (with_active_grid a st).
Proof. intros Ha [[Hs _] Hb]. done. Qed.

Lemma set_grid_wf value g st st' :
  (value = None ∨ value = Some 0 ∨ value = Some 1) →
  wf st → set_grid value g st = Ok st' → wf st'.
Proof.
  intros Hval Hwf. unfold set_grid.
  apply (for_each_preserves wf); [|done].
  intros r s0 s0' Hs0. apply (for_each_preserves wf); [|done].
  intros c s s' Hs Hrun.
  destruct value as [v|]; simpl in Hrun.
  - destruct (store_cell _ _ _ _ _) as [gs'|] eqn:E; simpl in Hrun; [|done].
    simplify_eq. eapply wf_store_cell; [done| |done].
    unfold bit. destruct Hval as [?|[?|?]]; simplify_eq; auto.
  - destruct (store_cell _ _ _ _ _) as [gs'|] eqn:E; simpl in Hrun; [|done].
    simplify_eq.
    apply (wf_store_cell (with_rng (λ n, rng s (S n)) s) g r c
             (Z.b2z (rng s 0%nat)) gs');
      [by apply wf_with_rng|apply bit_b2z|done].
Qed.

Lemma update_generation_wf st st' :
  wf st → update_generation st = Ok st' → wf st'.
Proof.
  intros Hwf. unfold update_generation. intros H.
  destruct (set_grid _ _ st) as [s1|] eqn:E1; simpl in H; [|done].
  apply set_grid_wf in E1; [|auto|done].
  destruct (for_each _ _ s1) as [s2|] eqn:E2; simpl in H; [|done].
  simplify_eq.
  apply wf_with_active_grid; [apply inactive_grid_range|].
  revert E2. apply (for_each_preserves wf); [|done].
  intros r s0 s0' Hs0. apply (for_each_preserves wf); [|done].
  intros c s s' Hs Hrun.
  destruct (check_cell_neighbors r c s) as [v|] eqn:Ev; simpl in Hrun; [|done].
  destruct (store_cell _ _ _ _ _) as [gs'|] eqn:E; simpl in Hrun; [|done].
  simplify_eq. eapply wf_store_cell; [done| |done].
  eapply check_cell_neighbors_bit; [|done]. by destruct Hs.
Qed.

Lemma handle_event_wf ev st st' :
  wf st → handle_event ev st = Ok st' → wf st'.
Proof.
  intros Hwf. destruct ev as [u| |]; simpl; [|done|by intros; simplify_eq].
  intros Hrun. repeat case_decide; simplify_eq.
  - by apply wf_with_paused.
  - destruct (set_grid None _ _) as [s1|] eqn:E1; simpl in Hrun; [|done].
    destruct (set_grid (Some 0) _ s1) as [s2|] eqn:E2; simpl in Hrun; [|done].
    destruct (draw_grid s2); simpl in Hrun; [|done]. simplify_eq.
    apply set_grid_wf in E1; [|auto|by apply wf_with_active_grid; auto].
    apply set_grid_wf in E2; auto.
  - by apply wf_with_game_over.
  - done.
Qed.

Lemma handle_events_wf evs st st' :
  wf st → handle_events evs st = Ok st' → wf st'.
Proof.
  revert st. induction evs as [|ev evs IH]; simpl; intros st Hwf H.
  - by simplify_eq.
  - destruct (handle_event ev st) as [s1|] eqn:E; simpl in H; [|done].
    eapply IH; [|done]. by eapply handle_event_wf.
Qed.

Lemma create_grid_shape st :
  0 <= num_rows st → 0 <= num_cols st →
  grid_shape (num_rows st) (num_cols st) (create_grid st).
Proof.
  intros HR HC. unfold create_grid, grid_shape, range, len. split.
  - rewrite !length_fmap, length_seq. lia.
  - apply Forall_fmap, Forall_forall. intros x _. simpl.
    rewrite length_replicate. lia.
Qed.

Lemma create_grid_binary st : Forall (Forall bit) (create_grid st).
Proof.
  unfold create_grid. apply Forall_fmap, Forall_forall. intros x _. simpl.
  apply Forall_replicate. by left.
Qed.

Lemma init_wf rows cols g st :
  0 <= rows → 0 <= cols → init rows cols g = Ok st → wf st.
Proof.
  intros HR HC. unfold init. intros H.
  destruct (set_grid None 0 _) as [s1|] eqn:E; simpl in H; [|done].
  simplify_eq. apply wf_with_game_over, wf_with_paused.
  revert E. apply set_grid_wf; [auto|].
  unfold init_grids. simpl. repeat split; simpl; auto.
  - repeat constructor; by apply (create_grid_shape (Build_LifeGame _ _ _ _ _ _ _)).
  - repeat constructor; apply create_grid_binary.
Qed.

Lemma reachable_wf st : reachable st → wf st.
Proof.
  induction 1 as [rows cols g st HR HC Hinit
                 |value g st st' _ IH Hval Hrun
                 |st st' _ IH Hrun
                 |evs st st' _ IH Hrun].
  - exact (init_wf _ _ _ _ HR HC Hinit).
  - exact (set_grid_wf _ _ _ _ Hval IH Hrun).
  - exact (update_generation_wf _ _ IH Hrun).
  - exact (handle_events_wf _ _ _ IH Hrun).
Qed.

End preservation.

(** ** Filling a buffer: [set_grid] *)

Section loops.
Import Py PyFacts.

(** Rule for a row-major double loop whose inner bound is re-read from
    the state at every row. *)
Lemma for_each_nested_rule {St} (I : Z → Z → St → Prop) n (m : St → Z) M
    (body : Z → Z → St → result St) (s : St) :
  I 0 0 s →
  (∀ i s, 0 <= i < n → I i 0 s → m s = M) →
  (∀ i j s, 0 <= i < n → 0 <= j < M → I i j s →
            ∃ s', body i j s = Ok s' ∧ I i (j + 1) s') →
  (∀ i s, 0 <= i < n → I i (Z.max 0 M) s → I (i + 1) 0 s) →
  ∃ s', for_each (range n) (λ i s, for_each (range (m s)) (body i) s) s = Ok s'
        ∧ I (Z.max 0 n) 0 s'.
Proof.
  intros Hs Hm Hbody Hrow.
  apply (for_each_range_rule (λ i s, I i 0 s)); [done|].
  intros i s0 Hi Hs0. rewrite (Hm i s0 Hi Hs0).
  destruct (for_each_range_rule (λ j s, I i j s) M (body i) s0)
    as (s1 & E & H1); [done| |].
  - intros j s1 Hj Hs1. by apply Hbody.
  - exists s1. split; [done|]. by apply Hrow.
Qed.

Lemma grids_shape_cols_nonneg R C gs :
  grids_shape R C gs → 0 < R → 0 <= C.
Proof.
  intros Hs HR.
  destruct (grids_shape_lookup R C gs 0 Hs) as (buf & _ & Hb); [lia|].
  destruct (grid_shape_lookup R C buf 0 Hb) as (row & _ & <-); [lia|].
  unfold len. lia.
Qed.

Lemma grids_shape_rows_nonneg R C gs : grids_shape R C gs → 0 <= R.
Proof.
  intros Hs.
  destruct (grids_shape_lookup R C gs 0 Hs) as (buf & _ & <- & _); [lia|].
  unfold len. lia.
Qed.

Lemma written_step W i j r c :
  j < W → written W i (j + 1) r c ↔ written W i j r c ∨ (r = i ∧ c = j).
Proof. unfold written. lia. Qed.

Lemma written_row W i r c :
  0 <= c → written W i (Z.max 0 W) r c ↔ written W (i + 1) 0 r c.
Proof. unfold written. lia. Qed.

Lemma written_start W r c : 0 <= r → 0 <= c → ¬ written W 0 0 r c.
Proof. unfold written. lia. Qed.

Lemma written_end W n r c :
  0 <= r → 0 <= c → written W (Z.max 0 n) 0 r c ↔ r < n ∧ c < W.
Proof. unfold written. lia. Qed.

(** [set_grid] on a shaped state never raises; it assigns the cells of
    the selected buffer in row-major order and touches nothing else. *)
Lemma set_grid_spec value g st :
  shaped st → (g = 0 ∨ g = 1) →
  ∃ st', set_grid value g st = Ok st' ∧
    same_frame st' st ∧
    grids_shape (num_rows st) (num_cols st) (grids st') ∧
    grids st' !! Z.to_nat (1 - g) = grids st !! Z.to_nat (1 - g) ∧
    (∀ n, rng st' n =
          rng_after value (rng st) (Z.to_nat (num_rows st * num_cols st)) n) ∧
    (∀ r c, in_grid st r c →
       cell_at (grids st') g r c =
       Some (fill_value value (rng st) (Z.to_nat (r * num_cols st + c)))).
Proof.
  intros [Hshape Hact] Hg.
  set (R := num_rows st). set (C := num_cols st).
  set (I := λ (i j : Z) (s : LifeGame),
    same_frame s st ∧ grids_shape R C (grids s) ∧
    grids s !! Z.to_nat (1 - g) = grids st !! Z.to_nat (1 - g) ∧
    (∀ n, rng s n = rng_after value (rng st) (Z.to_nat (i * C + j)) n) ∧
    (∀ r c, 0 <= r < R → 0 <= c < C → written C i j r c →
       cell_at (grids s) g r c =
       Some (fill_value value (rng st) (Z.to_nat (r * C + c))))).
  destruct (for_each_nested_rule I R num_cols C
    (λ r c st,
      let '(cell_value, st) :=
        match value with
        | None => randint01 st
        | Some v => (v, st)
        end in
      gs ← store_cell (grids st) g r c cell_value;
      Ok (with_grids gs st)) st) as (st' & Hrun & Hfin).
  - unfold I. split_and!; [done|done|done| |].
    + intros n. destruct value; simpl; [done|]. f_equal. lia.
    + intros r c Hr Hc Hw. by apply written_start in Hw; [|lia..].
  - intros i s _ (Hf & _). apply Hf.
  - intros i j s Hi Hj (Hf & Hsh & Hoth & Hrng & Hcells).
    set (k := Z.to_nat (i * C + j)).
    set (v := fill_value value (rng st) k).
    set (s1 := match value with
               | None => with_rng (λ n, rng s (S n)) s
               | Some _ => s
               end).
    exists (with_grids (upd (grids s) (Z.to_nat g) (Z.to_nat i) (Z.to_nat j) v) s1).
    assert (Hv : match value with
                 | None => randint01 s
                 | Some v => (v, s)
                 end = (v, s1)).
    { subst v s1. destruct value; simpl; [done|].
      unfold randint01. by rewrite (Hrng 0%nat). }
    rewrite Hv.
    assert (Hgs : grids s1 = grids s) by (subst s1; by destruct value).
    rewrite Hgs, (store_cell_in_range R C) by done. simpl.
    split; [done|]. unfold I. split_and!.
    + subst s1. unfold same_frame in *. destruct value; simpl; done.
    + by apply upd_shape.
    + simpl. rewrite upd_other_buffer by lia. done.
    + intros n. subst s1. destruct value; simpl.
      * rewrite Hrng. done.
      * rewrite (Hrng (S n)). simpl. f_equal.
        assert (0 <= i * C) by nia. lia.
    + intros r c Hr Hc Hw. apply written_step in Hw; [|lia]. simpl.
      destruct (decide (r = i ∧ c = j)) as [[-> ->]|Hne].
      * destruct (cell_at_is_Some R C (grids s) g i j) as [w Hw']; try done.
        by rewrite (cell_at_upd_eq _ _ _ _ _ w) by (done || lia).
      * rewrite cell_at_upd_ne by lia. apply Hcells; try done.
        destruct Hw as [?|?]; [done|lia].
  - intros i s Hi (Hf & Hsh & Hoth & Hrng & Hcells).
    assert (0 <= C) by (eapply grids_shape_cols_nonneg; [done|lia]).
    unfold I. split_and!; [done|done|done| |].
    + intros n. rewrite Hrng. f_equal. lia.
    + intros r c Hr Hc Hw. apply Hcells; try done. apply written_row; [lia|done].
  - exists st'. split; [exact Hrun|].
    destruct Hfin as (Hf & Hsh & Hoth & Hrng & Hcells).
    split_and!; [done|done|done| |].
    + intros n. rewrite Hrng.
      assert (0 <= R) by (eapply grids_shape_rows_nonneg; done).
      rewrite Z.max_r, Z.add_0_r by done. done.
    + intros r c [Hr Hc]. apply Hcells; try done.
      apply written_end; lia.
Qed.

(** Construction with non-negative dimensions never raises. *)
Lemma init_total rows cols g :
  0 <= rows → 0 <= cols → ∃ st, init rows cols g = Ok st.
Proof.
  intros HR HC. unfold init.
  set (st0 := init_grids _).
  assert (Hst0 : shaped st0).
  { subst st0. unfold init_grids. split; [|by left]. split; [done|]. simpl.
    repeat constructor;
      by apply (create_grid_shape (Build_LifeGame _ _ _ _ _ _ _)). }
  destruct (set_grid_spec None 0 st0 Hst0) as (s1 & -> & _); [by left|].
  simpl. eauto.
Qed.

End loops.

(** ** Reads depend on the active buffer only *)

Section active_only.
Import Py PyFacts.

Variables s st : LifeGame.
Hypothesis Hact : active_grid s = active_grid st.
Hypothesis Hrange : active_grid st = 0 ∨ active_grid st = 1.
Hypothesis Hlen : length (grids s) = 2%nat.
Hypothesis Hlen' : length (grids st) = 2%nat.
Hypothesis Hbuf :
  grids s !! Z.to_nat (active_grid st) = grids st !! Z.to_nat (active_grid st).

Lemma load_cell_active_cong r c :
  load_cell (grids s) (active_grid s) r c
  = load_cell (grids st) (active_grid st) r c.
Proof.
  assert (Hget : getitem (grids s) (active_grid st)
                 = getitem (grids st) (active_grid st)).
  { unfold getitem, len. rewrite Hlen, Hlen'.
    rewrite norm_nonneg by lia. by rewrite Hbuf. }
  rewrite Hact. unfold load_cell. by rewrite Hget.
Qed.

Lemma get_cell_active_cong r c : get_cell r c s = get_cell r c st.
Proof. unfold get_cell. by rewrite load_cell_active_cong. Qed.

Lemma num_alive_neighbors_active_cong r c :
  num_alive_neighbors r c s = num_alive_neighbors r c st.
Proof. unfold num_alive_neighbors. by rewrite !get_cell_active_cong. Qed.

Lemma check_cell_neighbors_active_cong r c :
  check_cell_neighbors r c s = check_cell_neighbors r c st.
Proof.
  unfold check_cell_neighbors.
  by rewrite load_cell_active_cong, num_alive_neighbors_active_cong.
Qed.

End active_only.

(** ** One generation: [update_generation] *)

Section generation.
Import Py PyFacts.

Lemma check_cell_neighbors_in_range st r c :
  shaped st → in_grid st r c →
  ∃ cur, cell_at (grids st) (active_grid st) r c = Some cur ∧
         check_cell_neighbors r c st
         = Ok (life_rule cur (num_alive_neighbors r c st)).
Proof.
  intros [Hs Ha] [Hr Hc].
  destruct (load_cell_in_range _ _ _ _ r c Hs Ha Hr Hc) as (cur & Hcur & Hload).
  exists cur. split; [done|]. unfold check_cell_neighbors. by rewrite Hload.
Qed.

Lemma update_generation_spec st :
  shaped st →
  ∃ st', update_generation st = Ok st' ∧
    num_rows st' = num_rows st ∧ num_cols st' = num_cols st ∧
    paused st' = paused st ∧ game_over st' = game_over st ∧
    (∀ n, rng st' n = rng st n) ∧
    active_grid st' = inactive_grid st ∧
    grids_shape (num_rows st) (num_cols st) (grids st') ∧
    grids st' !! Z.to_nat (active_grid st)
      = grids st !! Z.to_nat (active_grid st) ∧
    (∀ r c, 0 <= r < num_rows st - 1 → 0 <= c < num_cols st - 1 →
       ∃ v, check_cell_neighbors r c st = Ok v ∧
            cell_at (grids st') (inactive_grid st) r c = Some v) ∧
    (∀ r c, in_grid st r c → r = num_rows st - 1 ∨ c = num_cols st - 1 →
       cell_at (grids st') (inactive_grid st) r c = Some 0).
Proof.
  intros Hst. pose proof Hst as [Hshape Hact].
  set (R := num_rows st). set (C := num_cols st).
  set (a := active_grid st). set (ina := inactive_grid st).
  assert (Hina : ina = 1 - a) by (by apply inactive_grid_flip).
  assert (Hina01 : ina = 0 ∨ ina = 1) by apply inactive_grid_range.
  destruct (set_grid_spec (Some 0) ina st Hst Hina01)
    as (s1 & E1 & Hf1 & Hsh1 & Hoth1 & Hrng1 & Hcells1).
  unfold update_generation. fold ina. rewrite E1. simpl.
  replace (1 - ina) with a in Hoth1 by lia.
  set (I := λ (i j : Z) (s : LifeGame),
    same_frame s st ∧ grids_shape R C (grids s) ∧
    grids s !! Z.to_nat a = grids st !! Z.to_nat a ∧
    (∀ n, rng s n = rng st n) ∧
    (∀ r c, 0 <= r < R → 0 <= c < C →
       (written (C - 1) i j r c →
          ∃ v, check_cell_neighbors r c st = Ok v ∧
               cell_at (grids s) ina r c = Some v) ∧
       (¬ written (C - 1) i j r c → cell_at (grids s) ina r c = Some 0))).
  destruct (for_each_nested_rule I (num_rows s1 - 1) (λ s, num_cols s - 1) (C - 1)
    (λ r c st,
      next_gen_state ← check_cell_neighbors r c st;
      gs ← store_cell (grids st) (inactive_grid st) r c next_gen_state;
      Ok (with_grids gs st)) s1) as (s2 & E2 & Hfin).
  - unfold I. split_and!; [done|done|done|done|].
    intros r c Hr Hc. split.
    + intros Hw. by apply written_start in Hw; [|lia..].
    + intros _. by apply Hcells1.
  - intros i s _ ((_ & -> & _) & _). done.
  - intros i j s Hi Hj (Hf & Hsh & Hoth & Hrng & Hcells).
    destruct Hf1 as (HR1 & _). rewrite HR1 in Hi. fold R in Hi.
    pose proof Hf as (HRs & HCs & Has & _).
    assert (Hlen : length (grids s) = 2%nat) by (by destruct Hsh).
    assert (Hlen' : length (grids st) = 2%nat) by (by destruct Hshape).
    destruct (check_cell_neighbors_in_range st i j Hst) as (cur & _ & Hchk).
    { split; fold R C; lia. }
    rewrite (check_cell_neighbors_active_cong s st Has Hact Hlen Hlen' Hoth).
    rewrite Hchk. simpl.
    set (v := life_rule cur (num_alive_neighbors i j st)) in *.
    assert (Hinas : inactive_grid s = ina).
    { unfold inactive_grid. rewrite Has. done. }
    rewrite Hinas, (store_cell_in_range R C) by (done || lia). simpl.
    eexists. split; [done|]. unfold I. split_and!.
    + done.
    + by apply upd_shape.
    + simpl. rewrite upd_other_buffer by lia. done.
    + done.
    + intros r c Hr Hc. simpl.
      destruct (decide (r = i ∧ c = j)) as [[-> ->]|Hne].
      * destruct (cell_at_is_Some R C (grids s) ina i j) as [w Hw]; try done.
        rewrite (cell_at_upd_eq _ _ _ _ _ w) by (done || lia). split.
        -- intros _. by exists v.
        -- intros Hn. exfalso. apply Hn. apply written_step; [lia|]. by right.
      * rewrite cell_at_upd_ne by lia.
        destruct (Hcells r c Hr Hc) as [Hyes Hno]. split.
        -- intros Hw. apply written_step in Hw; [|lia].
           destruct Hw as [Hw|Hw]; [by apply Hyes|lia].
        -- intros Hn. apply Hno. intros Hw. apply Hn.
           apply written_step; [lia|]. by left.
  - intros i s Hi (Hf & Hsh & Hoth & Hrng & Hcells).
    unfold I. split_and!; [done|done|done|done|].
    intros r c Hr Hc. destruct (Hcells r c Hr Hc) as [Hyes Hno]. split.
    + intros Hw. apply Hyes. apply written_row; [lia|done].
    + intros Hn. apply Hno. intros Hw. apply Hn. apply written_row in Hw; [done|lia].
  - rewrite E2. simpl. eexists. split; [done|].
    destruct Hfin as (Hf & Hsh & Hoth & Hrng & Hcells).
    pose proof Hf as (HRs & HCs & Has & Hps & Hgs).
    destruct Hf1 as (HR1 & _).
    assert (Hinas : inactive_grid s2 = ina).
    { unfold inactive_grid. rewrite Has. done. }
    simpl. split_and!; try done.
    + intros r c Hr Hc.
      destruct (Hcells r c) as [Hyes _]; [fold R; lia|fold C; lia|].
      apply Hyes. apply written_end; [lia|lia|]. rewrite HR1. lia.
    + intros r c [Hr Hc] Hlast.
      destruct (Hcells r c Hr Hc) as [_ Hno].
      apply Hno. intros Hw. apply written_end in Hw; [|lia|lia].
      rewrite HR1 in Hw. lia.
Qed.

End generation.

(** ** What [get_cell] reads *)

Section reads.
Import Py PyFacts.

Lemma wrap_range n i k : wrap n i = Some k → 0 <= k < n.
Proof. unfold wrap. repeat case_decide; intros; simplify_eq; lia. Qed.

Lemma norm_wrap n i : norm n i = Z.to_nat <$> wrap n i.
Proof. unfold norm, wrap. by repeat case_decide. Qed.

Lemma wrap_in n i : 0 <= i < n → wrap n i = Some i.
Proof. intros. unfold wrap. by rewrite decide_True. Qed.

Lemma wrap_neg n i : - n <= i < 0 → wrap n i = Some (n + i).
Proof. intros. unfold wrap. rewrite decide_False by lia. by rewrite decide_True. Qed.

Lemma wrap_out n i : i < - n ∨ n <= i → wrap n i = None.
Proof. intros. unfold wrap. by rewrite !decide_False by lia. Qed.

Lemma getitem_wrap {A} (l : list A) i :
  getitem l i =
  match wrap (len l) i with
  | Some k =>
      match l !! Z.to_nat k with
      | Some x => Ok x
      | None => Raise IndexError
      end
  | None => Raise IndexError
  end.
Proof. unfold getitem. rewrite norm_wrap. by destruct (wrap _ _). Qed.

(** [get_cell] resolves the row and the column index separately, each
    with Python's rule for negative indices, and answers 0 when either
    designates no position. *)
Lemma get_cell_wrap st r c :
  shaped st →
  get_cell r c st =
  match wrap (num_rows st) r, wrap (num_cols st) c with
  | Some r', Some c' => active_cell st r' c'
  | _, _ => 0
  end.
Proof.
  intros [Hs Ha]. unfold get_cell, load_cell, active_cell, cell_at.
  destruct (grids_shape_lookup _ _ _ (Z.to_nat (active_grid st)) Hs)
    as (buf & Hbuf & Hb); [lia|].
  rewrite (getitem_pos _ _ buf) by (done || lia). rewrite Hbuf. simpl.
  pose proof Hb as [Hblen _].
  rewrite getitem_wrap, Hblen.
  destruct (wrap (num_rows st) r) as [r'|] eqn:Er; simpl; [|done].
  apply wrap_range in Er.
  destruct (grid_shape_lookup _ _ buf r' Hb Er) as (row & Hrow & Hl).
  rewrite Hrow. simpl.
  rewrite getitem_wrap, Hl.
  destruct (wrap (num_cols st) c) as [c'|] eqn:Ec; simpl; [|done].
  apply wrap_range in Ec.
  destruct (row_lookup row _ c' Hl Ec) as (v & Hv).
  by rewrite Hv.
Qed.

Lemma get_cell_in_grid st r c :
  shaped st → in_grid st r c → get_cell r c st = active_cell st r c.
Proof.
  intros Hst [Hr Hc]. rewrite get_cell_wrap by done.
  by rewrite !wrap_in by done.
Qed.

(** At or beyond the last index, and below minus the length, the read is
    dead. *)
Lemma get_cell_out st r c :
  shaped st →
  r < - num_rows st ∨ num_rows st <= r ∨
  c < - num_cols st ∨ num_cols st <= c →
  get_cell r c st = 0.
Proof.
  intros Hst Hout. rewrite get_cell_wrap by done.
  destruct (wrap (num_rows st) r) as [r'|] eqn:Er; [|done].
  destruct (wrap (num_cols st) c) as [c'|] eqn:Ec; [|done].
  exfalso. unfold wrap in *. repeat case_decide; simplify_eq; lia.
Qed.

(** A negative index in range reads from the far end. *)
Lemma get_cell_negative_row st r c :
  shaped st → - num_rows st <= r < 0 →
  get_cell r c st = get_cell (num_rows st + r) c st.
Proof.
  intros Hst Hr. rewrite !get_cell_wrap by done.
  by rewrite wrap_neg, (wrap_in _ (num_rows st + r)) by lia.
Qed.

Lemma get_cell_negative_col st r c :
  shaped st → - num_cols st <= c < 0 →
  get_cell r c st = get_cell r (num_cols st + c) st.
Proof.
  intros Hst Hr. rewrite !get_cell_wrap by done.
  by rewrite (wrap_neg _ c), (wrap_in _ (num_cols st + c)) by lia.
Qed.

Lemma active_cell_bit st r c : binary st → bit (active_cell st r c).
Proof.
  intros Hb. unfold active_cell, cell_at.
  destruct (grids st !! _) as [buf|] eqn:Hbuf; simpl; [|by left].
  destruct (buf !! _) as [row|] eqn:Hrow; simpl; [|by left].
  destruct (row !! _) as [v|] eqn:Hv; simpl; [|by left].
  pose proof (Forall_lookup_1 _ _ _ _ Hb Hbuf) as H1.
  pose proof (Forall_lookup_1 _ _ _ _ H1 Hrow) as H2.
  exact (Forall_lookup_1 _ _ _ _ H2 Hv).
Qed.

Lemma get_cell_bit st r c : wf st → bit (get_cell r c st).
Proof.
  intros [Hst Hb]. rewrite get_cell_wrap by done.
  destruct (wrap _ r); [|by left]. destruct (wrap _ c); [|by left].
  by apply active_cell_bit.
Qed.

(** The neighbour count of a well-formed state lies in [0, 8]. *)
Lemma num_alive_neighbors_bounds st r c :
  wf st → 0 <= num_alive_neighbors r c st <= 8.
Proof.
  intros Hwf. unfold num_alive_neighbors, find_alive_neighbors.
  pose proof (get_cell_bit st (r - 1) (c - 1) Hwf).
  pose proof (get_cell_bit st (r - 1) c Hwf).
  pose proof (get_cell_bit st (r - 1) (c + 1) Hwf).
  pose proof (get_cell_bit st r (c - 1) Hwf).
  pose proof (get_cell_bit st r (c + 1) Hwf).
  pose proof (get_cell_bit st (r + 1) (c - 1) Hwf).
  pose proof (get_cell_bit st (r + 1) (c + 1) Hwf).
  pose proof (get_cell_bit st (r + 1) c Hwf).
  unfold bit in *. lia.
Qed.

(** Away from row 0 and column 0 no neighbour index is negative, and the
    count is the Moore sum with everything outside the grid dead. *)
Lemma num_alive_neighbors_interior st r c :
  shaped st → 1 <= r → 1 <= c →
  num_alive_neighbors r c st = moore_sum_dead_outside st r c.
Proof.
  intros Hst Hr Hc.
  assert (Hread : ∀ r' c', 0 <= r' → 0 <= c' →
            get_cell r' c' st = read_dead_outside st r' c').
  { intros r' c' Hr' Hc'. unfold read_dead_outside. case_decide as Hin.
    - by apply get_cell_in_grid.
    - apply get_cell_out; [done|]. unfold in_grid in Hin. lia. }
  unfold num_alive_neighbors, find_alive_neighbors, moore_sum_dead_outside.
  by rewrite !Hread by lia.
Qed.

(** When the last row and the last column of the active buffer are dead,
    the reads at index -1 land on dead cells. *)
Lemma get_cell_bordered st f r c :
  shaped st → active_is st f →
  (∀ c', f (num_rows st - 1) c' = 0) →
  (∀ r', f r' (num_cols st - 1) = 0) →
  -1 <= r → -1 <= c →
  get_cell r c st = if decide (in_grid st r c) then f r c else 0.
Proof.
  intros Hst Hf Hrow Hcol Hr Hc. rewrite get_cell_wrap by done.
  assert (Hcell : ∀ r' c', in_grid st r' c' → active_cell st r' c' = f r' c').
  { intros r' c' Hin. unfold active_cell. by rewrite Hf. }
  unfold in_grid in *. unfold wrap.
  repeat case_decide; try lia; try done.
  - by apply Hcell.
  - replace (num_cols st + c) with (num_cols st - 1) by lia.
    rewrite Hcell by lia. apply Hcol.
  - replace (num_rows st + r) with (num_rows st - 1) by lia.
    rewrite Hcell by lia. apply Hrow.
  - replace (num_rows st + r) with (num_rows st - 1) by lia.
    rewrite Hcell by lia. apply Hrow.
Qed.

End reads.

(** ** The grid store *)

(** Cell-by-cell check of a state given by explicit lists. *)
Ltac each_cell :=
  let r := fresh "r" in
  let c := fresh "c" in
  let Hr := fresh "Hr" in
  let Hc := fresh "Hc" in
  intros r c [Hr Hc]; simpl in Hr, Hc;
  assert (r = 0 ∨ r = 1 ∨ r = 2 ∨ r = 3 ∨ r = 4 ∨ r = 5)
    as [->|[->|[->|[->|[->| ->]]]]] by lia;
  assert (c = 0 ∨ c = 1 ∨ c = 2 ∨ c = 3 ∨ c = 4 ∨ c = 5)
    as [->|[->|[->|[->|[->| ->]]]]] by lia;
  first [ reflexivity | lia ].

(** Well-formedness of a state given by explicit lists. *)
Ltac concrete_wf :=
  unfold wf, shaped, binary, grids_shape, grids_binary, grid_shape, bit;
  simpl;
  repeat first [ reflexivity | by left | by right | constructor ].

Lemma crowded_init : init 3 3 (λ _, true) = Ok crowded.
Proof. reflexivity. Qed.

Lemma crowded_reachable : reachable crowded.
Proof. apply (reach_init 3 3 (λ _, true)); [lia|lia|exact crowded_init]. Qed.

(** C1 (fails on the code): [get_cell] does not treat every position
    outside the grid as dead. In the 3 × 3 game whose buffer 0 is
    entirely alive, a state reached by construction, the position
    [(-1, 0)] lies outside [0, 3) × [0, 3), yet [get_cell (-1) 0] is 1:
    index -1 reads the last row. The same holds for column -1. *)
Theorem get_cell_negative_index_wraps :
  reachable crowded ∧
  ¬ in_grid crowded (-1) 0 ∧ get_cell (-1) 0 crowded = 1 ∧
  ¬ in_grid crowded 0 (-1) ∧ get_cell 0 (-1) crowded = 1.
Proof.
  split; [exact crowded_reachable|].
  unfold in_grid. simpl. split_and!; try reflexivity; lia.
Qed.

(** C4 (fails on the code): the neighbour count is not the Moore sum
    with positions outside the grid counting as dead. At the corner
    [(0, 0)] of the 3 × 3 game whose buffer 0 is entirely alive, only
    three Moore neighbours lie inside the grid, so that sum is 3, while
    [num_alive_neighbors] is 8: the five neighbours at row -1 or column
    -1 are read from the last row and the last column. *)
Theorem num_alive_neighbors_counts_wrapped_cells :
  reachable crowded ∧ in_grid crowded 0 0 ∧
  moore_sum_dead_outside crowded 0 0 = 3 ∧
  num_alive_neighbors 0 0 crowded = 8.
Proof.
  split; [exact crowded_reachable|].
  unfold in_grid. simpl. split_and!; try reflexivity; lia.
Qed.

(** C10: every state reachable from construction through [set_grid]
    (with a random or 0/1 fill), [update_generation] and [handle_events]
    holds only 0 or 1 in every cell of both buffers, and both buffers
    have exactly [num_rows] rows of [num_cols] cells. *)
Theorem reachable_invariant st :
  reachable st →
  grids_binary (grids st) ∧
  grids_shape (num_rows st) (num_cols st) (grids st).
Proof. intros [[Hs _] Hb]%reachable_wf. done. Qed.

Lemma reachable_invariant_witness :
  reachable crowded ∧
  grids_binary (grids crowded) ∧
  grids_shape (num_rows crowded) (num_cols crowded) (grids crowded).
Proof.
  split.
  - apply (reach_init 3 3 (λ _, true)); [lia|lia|reflexivity].
  - apply (reachable_invariant crowded).
    apply (reach_init 3 3 (λ _, true)); [lia|lia|reflexivity].
Defined.

(** ** The generation engine *)

(** C3: on a cell of the active buffer, [check_cell_neighbors] applies
    B3/S23 to the cell's state and its neighbour count: an alive cell
    dies with more than 3 or fewer than 2 alive neighbours and stays
    alive with 2 or 3; a dead cell comes to life with exactly 3 and stays
    dead otherwise. *)
Theorem check_cell_neighbors_B3S23 st r c :
  wf st → in_grid st r c →
  ∃ cur, cell_at (grids st) (active_grid st) r c = Some cur ∧
    (cur = 0 ∨ cur = 1) ∧
    let n := num_alive_neighbors r c st in
    (cur = 1 → n > 3 ∨ n < 2 → check_cell_neighbors r c st = Ok 0) ∧
    (cur = 1 → n = 2 ∨ n = 3 → check_cell_neighbors r c st = Ok 1) ∧
    (cur = 0 → n = 3 → check_cell_neighbors r c st = Ok 1) ∧
    (cur = 0 → n ≠ 3 → check_cell_neighbors r c st = Ok 0).
Proof.
  intros [Hst Hb] Hin.
  destruct (check_cell_neighbors_in_range st r c Hst Hin) as (cur & Hcur & Hchk).
  exists cur. split; [done|]. split.
  { pose proof (active_cell_bit st r c Hb) as Hbit.
    unfold active_cell in Hbit. by rewrite Hcur in Hbit. }
  rewrite Hchk. simpl. unfold life_rule.
  split_and!; intros -> Hn; simpl; f_equal.
  - destruct Hn; [by rewrite (proj2 (Z.gtb_gt _ _)) by lia|].
    destruct (_ >? 3); [done|]. by rewrite (proj2 (Z.ltb_lt _ _)) by lia.
  - by destruct Hn as [-> | ->].
  - by rewrite Hn.
  - by rewrite (proj2 (Z.eqb_neq _ _)).
Qed.

Lemma check_cell_neighbors_B3S23_witness :
  wf crowded ∧ in_grid crowded 1 1 ∧
  ∃ cur, cell_at (grids crowded) (active_grid crowded) 1 1 = Some cur ∧
    (cur = 0 ∨ cur = 1) ∧
    let n := num_alive_neighbors 1 1 crowded in
    (cur = 1 → n > 3 ∨ n < 2 → check_cell_neighbors 1 1 crowded = Ok 0) ∧
    (cur = 1 → n = 2 ∨ n = 3 → check_cell_neighbors 1 1 crowded = Ok 1) ∧
    (cur = 0 → n = 3 → check_cell_neighbors 1 1 crowded = Ok 1) ∧
    (cur = 0 → n ≠ 3 → check_cell_neighbors 1 1 crowded = Ok 0).
Proof.
  assert (Hwf : wf crowded) by concrete_wf.
  assert (Hin : in_grid crowded 1 1) by (unfold in_grid; simpl; lia).
  split; [exact Hwf|]. split; [exact Hin|].
  exact (check_cell_neighbors_B3S23 crowded 1 1 Hwf Hin).
Defined.

(** C2: from a reachable state [update_generation] returns normally;
    its first step leaves the inactive buffer entirely dead; in the
    result the active index is the former inactive one, every cell with
    row in [0, num_rows - 1) and column in [0, num_cols - 1) of the new
    active buffer holds the value [check_cell_neighbors] computes for it
    on the state at entry, and the last row and the last column of the
    new active buffer are dead. *)
Theorem update_generation_writes_next_states st :
  reachable st →
  (∃ s1, set_grid (Some 0) (inactive_grid st) st = Ok s1 ∧
         buffer_dead s1 (inactive_grid st)) ∧
  ∃ st', update_generation st = Ok st' ∧
    active_grid st' = inactive_grid st ∧
    num_rows st' = num_rows st ∧ num_cols st' = num_cols st ∧
    (∀ r c, 0 <= r < num_rows st - 1 → 0 <= c < num_cols st - 1 →
       ∃ v, check_cell_neighbors r c st = Ok v ∧
            cell_at (grids st') (active_grid st') r c = Some v) ∧
    (∀ r c, in_grid st' r c →
       r = num_rows st' - 1 ∨ c = num_cols st' - 1 →
       cell_at (grids st') (active_grid st') r c = Some 0).
Proof.
  intros [Hst _]%reachable_wf. split.
  - destruct (set_grid_spec (Some 0) (inactive_grid st) st Hst
                (inactive_grid_range st))
      as (s1 & E1 & (HR & HC & _) & _ & _ & _ & Hcells).
    exists s1. split; [done|]. intros r c [Hr Hc].
    rewrite HR in Hr. rewrite HC in Hc. by rewrite Hcells.
  - destruct (update_generation_spec st Hst)
      as (st' & E & HR & HC & _ & _ & _ & Ha & _ & _ & Hnext & Hlast).
    exists st'. rewrite Ha, HR, HC. split_and!; try done.
    intros r c [Hr Hc]. rewrite HR in Hr. rewrite HC in Hc. by apply Hlast.
Qed.

Lemma update_generation_writes_next_states_witness :
  reachable crowded ∧
  ∃ st', update_generation crowded = Ok st' ∧
    active_grid st' = inactive_grid crowded ∧
    ∀ r c, in_grid st' r c →
       r = num_rows st' - 1 ∨ c = num_cols st' - 1 →
       cell_at (grids st') (active_grid st') r c = Some 0.
Proof.
  split; [exact crowded_reachable|].
  destruct (update_generation_writes_next_states crowded crowded_reachable)
    as (_ & st' & E & Ha & _ & _ & _ & Hlast).
  exists st'. split; [exact E|]. split; [exact Ha|exact Hlast].
Defined.

(** C9: from a reachable state [update_generation] leaves the buffer
    that was active at entry as it was, cell for cell, together with the
    grid dimensions, the flags and the random stream; the active index
    becomes the index of the other buffer. *)
Theorem update_generation_keeps_active_buffer st :
  reachable st →
  ∃ st', update_generation st = Ok st' ∧
    grids st' !! Z.to_nat (active_grid st)
      = grids st !! Z.to_nat (active_grid st) ∧
    (∀ r c, cell_at (grids st') (active_grid st) r c
            = cell_at (grids st) (active_grid st) r c) ∧
    active_grid st' = inactive_grid st ∧
    inactive_grid st ≠ active_grid st ∧
    num_rows st' = num_rows st ∧ num_cols st' = num_cols st ∧
    paused st' = paused st ∧ game_over st' = game_over st ∧
    (∀ n, rng st' n = rng st n).
Proof.
  intros [Hst _]%reachable_wf.
  destruct (update_generation_spec st Hst)
    as (st' & E & HR & HC & Hp & Hg & Hrng & Ha & _ & Hbuf & _ & _).
  exists st'. split_and!; try done.
  - intros r c. unfold cell_at. by rewrite Hbuf.
  - destruct Hst as [_ Hact]. rewrite inactive_grid_flip by done. lia.
Qed.

Lemma update_generation_keeps_active_buffer_witness :
  reachable crowded ∧
  ∃ st', update_generation crowded = Ok st' ∧
    grids st' !! Z.to_nat (active_grid crowded)
      = grids crowded !! Z.to_nat (active_grid crowded).
Proof.
  split; [exact crowded_reachable|].
  destruct (update_generation_keeps_active_buffer crowded crowded_reachable)
    as (st' & E & Hbuf & _).
  exists st'. split; [exact E|exact Hbuf].
Defined.

(** C5: when every cell of the active buffer is dead,
    [update_generation] returns a state whose active buffer is entirely
    dead. *)
Theorem update_generation_all_dead st :
  shaped st → buffer_dead st (active_grid st) →
  ∃ st', update_generation st = Ok st' ∧ buffer_dead st' (active_grid st').
Proof.
  intros Hst Hdead.
  assert (Hget : ∀ r c, get_cell r c st = 0).
  { intros r c. rewrite get_cell_wrap by done.
    destruct (wrap _ r) as [r'|] eqn:Er; [|done].
    destruct (wrap _ c) as [c'|] eqn:Ec; [|done].
    unfold active_cell. rewrite Hdead; [done|].
    split; by eapply wrap_range. }
  destruct (update_generation_spec st Hst)
    as (st' & E & HR & HC & _ & _ & _ & Ha & _ & _ & Hnext & Hlast).
  exists st'. split; [done|]. intros r c [Hr Hc].
  rewrite HR in Hr. rewrite HC in Hc. rewrite Ha.
  destruct (decide (r = num_rows st - 1 ∨ c = num_cols st - 1)) as [Hl|Hl].
  - by apply Hlast.
  - destruct (Hnext r c) as (v & Hv & ->); [lia|lia|]. f_equal.
    destruct (check_cell_neighbors_in_range st r c Hst) as (cur & Hcur & Hchk);
      [done|].
    rewrite Hdead in Hcur by done. injection Hcur as <-.
    rewrite Hchk in Hv. injection Hv as <-.
    unfold num_alive_neighbors. by rewrite !Hget.
Qed.

Lemma update_generation_all_dead_witness :
  shaped barren ∧ buffer_dead barren (active_grid barren) ∧
  ∃ st', update_generation barren = Ok st' ∧
         buffer_dead st' (active_grid st').
Proof.
  assert (Hst : shaped barren) by concrete_wf.
  assert (Hdead : buffer_dead barren (active_grid barren)) by each_cell.
  split; [exact Hst|]. split; [exact Hdead|].
  exact (update_generation_all_dead barren Hst Hdead).
Defined.

(** *** A lone cell *)

Lemma hit_in n a i : 0 <= i < n → hit n a i = (i =? a).
Proof. intros. unfold hit. by rewrite wrap_in. Qed.

Lemma hit_next n a i :
  0 <= i < n - 1 → hit n a i && hit n a (i + 1) = false.
Proof.
  intros. rewrite !hit_in by lia.
  destruct (Z.eqb_spec i a), (Z.eqb_spec (i + 1) a); simpl; try done. lia.
Qed.

Lemma hit_prev n a i :
  0 <= i < n - 1 → hit n a i && hit n a (i - 1) = false.
Proof.
  intros. rewrite (hit_in n a i) by lia. unfold hit, wrap.
  repeat case_decide; try lia;
    repeat match goal with
    | |- context [?x =? ?y] => destruct (Z.eqb_spec x y)
    end; simpl; try done; lia.
Qed.

Lemma get_cell_lone st r0 c0 r c :
  shaped st → active_is st (lone r0 c0) →
  get_cell r c st
  = Z.b2z (hit (num_rows st) r0 r && hit (num_cols st) c0 c).
Proof.
  intros Hst Hf. rewrite get_cell_wrap by done. unfold hit.
  destruct (wrap _ r) as [r'|] eqn:Er; [|done].
  destruct (wrap _ c) as [c'|] eqn:Ec; [|by rewrite andb_false_r].
  unfold active_cell. rewrite Hf by (split; by eapply wrap_range).
  unfold lone. by destruct (_ && _).
Qed.

(** C7: when the active buffer holds exactly one live cell,
    [update_generation] returns a state whose active buffer is entirely
    dead. *)
Theorem update_generation_lone_cell_dies st r0 c0 :
  shaped st → in_grid st r0 c0 → active_is st (lone r0 c0) →
  ∃ st', update_generation st = Ok st' ∧ buffer_dead st' (active_grid st').
Proof.
  intros Hst Hin0 Hf.
  destruct (update_generation_spec st Hst)
    as (st' & E & HR & HC & _ & _ & _ & Ha & _ & _ & Hnext & Hlast).
  exists st'. split; [done|]. intros r c [Hr Hc].
  rewrite HR in Hr. rewrite HC in Hc. rewrite Ha.
  destruct (decide (r = num_rows st - 1 ∨ c = num_cols st - 1)) as [Hl|Hl].
  { by apply Hlast. }
  destruct (Hnext r c) as (v & Hv & ->); [lia|lia|]. f_equal.
  destruct (check_cell_neighbors_in_range st r c Hst) as (cur & Hcur & Hchk);
    [done|].
  rewrite Hf in Hcur by done. injection Hcur as <-.
  rewrite Hchk in Hv. injection Hv as <-.
  unfold num_alive_neighbors, find_alive_neighbors.
  rewrite !(get_cell_lone st r0 c0) by done.
  unfold lone. rewrite <- (hit_in (num_rows st) r0 r) by lia.
  rewrite <- (hit_in (num_cols st) c0 c) by lia.
  pose proof (hit_next (num_rows st) r0 r ltac:(lia)) as Hg1.
  pose proof (hit_prev (num_rows st) r0 r ltac:(lia)) as Hg2.
  pose proof (hit_next (num_cols st) c0 c ltac:(lia)) as Hh1.
  pose proof (hit_prev (num_cols st) c0 c ltac:(lia)) as Hh2.
  destruct (hit (num_rows st) r0 (r - 1)), (hit (num_rows st) r0 r),
    (hit (num_rows st) r0 (r + 1)), (hit (num_cols st) c0 (c - 1)),
    (hit (num_cols st) c0 c), (hit (num_cols st) c0 (c + 1));
    simpl in *; done.
Qed.

Lemma update_generation_lone_cell_dies_witness :
  shaped lonely ∧ in_grid lonely 1 1 ∧ active_is lonely (lone 1 1) ∧
  ∃ st', update_generation lonely = Ok st' ∧
         buffer_dead st' (active_grid st').
Proof.
  assert (Hst : shaped lonely) by concrete_wf.
  assert (Hin : in_grid lonely 1 1) by (unfold in_grid; simpl; lia).
  assert (Hf : active_is lonely (lone 1 1)) by each_cell.
  split; [exact Hst|]. split; [exact Hin|]. split; [exact Hf|].
  exact (update_generation_lone_cell_dies lonely 1 1 Hst Hin Hf).
Defined.

(** *** The blinker *)

Ltac decide_tests :=
  repeat match goal with
  | |- context [?a =? ?b] =>
      first [ rewrite (proj2 (Z.eqb_eq a b)) by lia
            | rewrite (proj2 (Z.eqb_neq a b)) by lia ]
  | |- context [?a <=? ?b] =>
      first [ rewrite (proj2 (Z.leb_le a b)) by lia
            | rewrite (proj2 (Z.leb_gt a b)) by lia ]
  end.

(** On the unbounded plane the rule turns the blinker by a quarter. *)
Lemma blinker_rule o r0 c0 r c :
  life_rule (blinker o r0 c0 r c)
    (find_alive_neighbors
       (blinker o r0 c0 (r - 1) (c - 1)) (blinker o r0 c0 (r - 1) c)
       (blinker o r0 c0 (r - 1) (c + 1)) (blinker o r0 c0 r (c - 1))
       (blinker o r0 c0 r (c + 1)) (blinker o r0 c0 (r + 1) (c - 1))
       (blinker o r0 c0 (r + 1) (c + 1)) (blinker o r0 c0 (r + 1) c))
  = blinker (turn o) r0 c0 r c.
Proof.
  assert (Hr : r < r0 - 2 ∨ r = r0 - 2 ∨ r = r0 - 1 ∨ r = r0 ∨ r = r0 + 1
               ∨ r = r0 + 2 ∨ r0 + 2 < r) by lia.
  assert (Hc : c < c0 - 2 ∨ c = c0 - 2 ∨ c = c0 - 1 ∨ c = c0 ∨ c = c0 + 1
               ∨ c = c0 + 2 ∨ c0 + 2 < c) by lia.
  destruct o; unfold blinker, turn;
    destruct Hr as [Hr|[Hr|[Hr|[Hr|[Hr|[Hr|Hr]]]]]];
    destruct Hc as [Hc|[Hc|[Hc|[Hc|[Hc|[Hc|Hc]]]]]];
    decide_tests; reflexivity.
Qed.

Lemma blinker_far o r0 c0 r c :
  r < r0 - 1 ∨ r0 + 1 < r ∨ c < c0 - 1 ∨ c0 + 1 < c →
  blinker o r0 c0 r c = 0.
Proof.
  intros H. destruct o; unfold blinker;
    repeat match goal with
    | |- context [?a =? ?b] => destruct (Z.eqb_spec a b)
    | |- context [?a <=? ?b] => destruct (Z.leb_spec a b)
    end; simpl; first [done | lia].
Qed.

Lemma turn_turn o : turn (turn o) = o.
Proof. by destruct o. Qed.

Section blinker_step.
Variables (st : LifeGame) (o : orientation) (r0 c0 : Z).
Hypothesis Hst : shaped st.
Hypothesis Hrows : 1 <= r0 ∧ r0 + 1 < num_rows st - 1.
Hypothesis Hcols : 1 <= c0 ∧ c0 + 1 < num_cols st - 1.
Hypothesis Hf : active_is st (blinker o r0 c0).

Lemma get_cell_blinker r c :
  -1 <= r → -1 <= c → get_cell r c st = blinker o r0 c0 r c.
Proof.
  intros Hr Hc.
  rewrite (get_cell_bordered st (blinker o r0 c0)); try done.
  - case_decide as Hin; [done|]. symmetry. apply blinker_far.
    unfold in_grid in Hin. lia.
  - intros c'. apply blinker_far. lia.
  - intros r'. apply blinker_far. lia.
Qed.

Lemma update_generation_blinker :
  ∃ st', update_generation st = Ok st' ∧ shaped st' ∧
    num_rows st' = num_rows st ∧ num_cols st' = num_cols st ∧
    active_is st' (blinker (turn o) r0 c0).
Proof.
  destruct (update_generation_spec st Hst)
    as (st' & E & HR & HC & _ & _ & _ & Ha & Hsh & _ & Hnext & Hlast).
  exists st'. split_and!; try done.
  { split; [by rewrite HR, HC|]. rewrite Ha. apply inactive_grid_range. }
  intros r c [Hr Hc]. rewrite HR in Hr. rewrite HC in Hc. rewrite Ha.
  destruct (decide (r = num_rows st - 1 ∨ c = num_cols st - 1)) as [Hl|Hl].
  { rewrite Hlast by done. f_equal. symmetry. apply blinker_far. lia. }
  destruct (Hnext r c) as (v & Hv & ->); [lia|lia|]. f_equal.
  destruct (check_cell_neighbors_in_range st r c Hst) as (cur & Hcur & Hchk);
    [done|].
  rewrite Hf in Hcur by done. injection Hcur as <-.
  rewrite Hchk in Hv. injection Hv as <-.
  unfold num_alive_neighbors.
  rewrite !get_cell_blinker by lia. apply blinker_rule.
Qed.

End blinker_step.

(** C6: when the active buffer holds a vertical or horizontal blinker
    whose cells, in both orientations, lie in
    [0, num_rows - 1) × [0, num_cols - 1), and every other cell is dead,
    two calls of [update_generation] return normally and the active
    buffer holds the original pattern again. *)
Theorem blinker_period_two st o r0 c0 :
  shaped st →
  1 <= r0 ∧ r0 + 1 < num_rows st - 1 →
  1 <= c0 ∧ c0 + 1 < num_cols st - 1 →
  active_is st (blinker o r0 c0) →
  ∃ st1 st2,
    update_generation st = Ok st1 ∧ update_generation st1 = Ok st2 ∧
    num_rows st2 = num_rows st ∧ num_cols st2 = num_cols st ∧
    active_is st1 (blinker (turn o) r0 c0) ∧
    active_is st2 (blinker o r0 c0).
Proof.
  intros Hst Hrows Hcols Hf.
  destruct (update_generation_blinker st o r0 c0 Hst Hrows Hcols Hf)
    as (st1 & E1 & Hst1 & HR1 & HC1 & Hf1).
  destruct (update_generation_blinker st1 (turn o) r0 c0 Hst1) as
    (st2 & E2 & Hst2 & HR2 & HC2 & Hf2);
    [by rewrite HR1|by rewrite HC1|done|].
  exists st1, st2. rewrite turn_turn in Hf2.
  split_and!; try done; congruence.
Qed.

Lemma blinker_period_two_witness :
  shaped blinking ∧
  (1 <= 2 ∧ 2 + 1 < num_rows blinking - 1) ∧
  (1 <= 2 ∧ 2 + 1 < num_cols blinking - 1) ∧
  active_is blinking (blinker Vertical 2 2) ∧
  ∃ st1 st2,
    update_generation blinking = Ok st1 ∧ update_generation st1 = Ok st2 ∧
    active_is st2 (blinker Vertical 2 2).
Proof.
  assert (Hst : shaped blinking) by concrete_wf.
  assert (Hrows : 1 <= 2 ∧ 2 + 1 < num_rows blinking - 1) by (simpl; lia).
  assert (Hcols : 1 <= 2 ∧ 2 + 1 < num_cols blinking - 1) by (simpl; lia).
  assert (Hf : active_is blinking (blinker Vertical 2 2)) by each_cell.
  split_and!; try done.
  destruct (blinker_period_two blinking Vertical 2 2 Hst Hrows Hcols Hf)
    as (st1 & st2 & E1 & E2 & _ & _ & _ & Hf2).
  exists st1, st2. split; [exact E1|]. split; [exact E2|exact Hf2].
Defined.

(** ** The randomize command *)

Section randomize.
Import Py PyFacts.

Lemma draw_grid_total st : shaped st → ∃ frame, draw_grid st = Ok frame.
Proof.
  intros [Hs Ha]. unfold draw_grid.
  destruct (for_each_nested_rule (λ _ _ (_ : list (Z * Z * bool)), True)
    (num_cols st) (λ _, num_rows st) (num_rows st)
    (λ c r frame,
      v ← load_cell (grids st) (active_grid st) r c;
      Ok (frame ++ [(c, r, v =? 1)])) []) as (frame & E & _); try done.
  - intros c r frame Hc Hr _.
    destruct (load_cell_in_range _ _ _ _ r c Hs Ha Hr Hc) as (v & _ & ->).
    simpl. eauto.
  - eauto.
Qed.

(** The key [r] on a shaped state. *)
Lemma randomize_spec st :
  shaped st →
  ∃ st', handle_event (KEYDOWN "r") st = Ok st' ∧
    active_grid st' = 0 ∧ inactive_grid st' = 1 ∧
    num_rows st' = num_rows st ∧ num_cols st' = num_cols st ∧
    (∀ r c, in_grid st' r c →
       cell_at (grids st') 0 r c
       = Some (Z.b2z (rng st (Z.to_nat (r * num_cols st + c))))) ∧
    buffer_dead st' 1.
Proof.
  intros [Hs _].
  set (st0 := with_active_grid 0 st).
  assert (Hst0 : shaped st0) by (split; [done|by left]).
  destruct (set_grid_spec None 0 st0 Hst0) as
    (s1 & E1 & Hf1 & Hsh1 & _ & _ & Hcells1); [by left|].
  pose proof Hf1 as (HR1 & HC1 & Ha1 & _).
  assert (Hs1 : shaped s1).
  { split; [by rewrite HR1, HC1|]. rewrite Ha1. by left. }
  assert (Hina : inactive_grid s1 = 1) by (unfold inactive_grid; by rewrite Ha1).
  destruct (set_grid_spec (Some 0) 1 s1 Hs1) as
    (s2 & E2 & Hf2 & Hsh2 & Hoth2 & _ & Hcells2); [by right|].
  pose proof Hf2 as (HR2 & HC2 & Ha2 & _).
  assert (Hs2 : shaped s2).
  { split; [by rewrite HR2, HC2|]. rewrite Ha2, Ha1. by left. }
  destruct (draw_grid_total s2 Hs2) as (frame & Edraw).
  exists s2. split.
  { simpl. fold st0. rewrite E1. simpl. rewrite Hina, E2. simpl.
    by rewrite Edraw. }
  split_and!.
  - by rewrite Ha2, Ha1.
  - unfold inactive_grid. by rewrite Ha2, Ha1.
  - by rewrite HR2, HR1.
  - by rewrite HC2, HC1.
  - intros r c [Hr Hc]. rewrite HR2, HR1 in Hr. rewrite HC2, HC1 in Hc.
    unfold cell_at. change (Z.to_nat (1 - 1)) with (Z.to_nat 0) in Hoth2.
    rewrite Hoth2. by apply (Hcells1 r c).
  - intros r c [Hr Hc]. rewrite HR2 in Hr. rewrite HC2 in Hc.
    by rewrite (Hcells2 r c).
Qed.

(** Only the window-close event makes the handler raise. *)
Lemma handle_event_total ev st :
  shaped st → ev ≠ QUIT → ∃ st', handle_event ev st = Ok st'.
Proof.
  intros Hst Hq. destruct ev as [u| |]; [|done|simpl; eauto].
  destruct (decide (u = "r")) as [->|Hr].
  - destruct (randomize_spec st Hst) as (st' & E & _). eauto.
  - simpl. repeat case_decide; eauto. done.
Qed.

(** C8: from a reachable state, the key [r] makes buffer 0 active, fills
    it in row-major order with the next draws of [random.randint(0, 1)],
    each 0 or 1, and leaves buffer 1, the inactive buffer, entirely
    dead. *)
Theorem randomize_clears_inactive_buffer st :
  reachable st →
  ∃ st', handle_events [KEYDOWN "r"] st = Ok st' ∧
    active_grid st' = 0 ∧ inactive_grid st' = 1 ∧
    num_rows st' = num_rows st ∧ num_cols st' = num_cols st ∧
    (∀ r c, in_grid st' r c →
       cell_at (grids st') 0 r c
       = Some (Z.b2z (rng st (Z.to_nat (r * num_cols st + c))))) ∧
    (∀ r c, in_grid st' r c →
       cell_at (grids st') 0 r c = Some 0 ∨
       cell_at (grids st') 0 r c = Some 1) ∧
    buffer_dead st' 1.
Proof.
  intros [Hst _]%reachable_wf.
  destruct (randomize_spec st Hst)
    as (st' & E & Ha & Hina & HR & HC & Hzero & Hdead).
  exists st'. split.
  { unfold handle_events. by rewrite E. }
  split_and!; try done.
  intros r c Hin. rewrite Hzero by done.
  destruct (rng st _); [by right|by left].
Qed.

End randomize.

Lemma randomize_clears_inactive_buffer_witness :
  reachable crowded ∧
  ∃ st', handle_events [KEYDOWN "r"] crowded = Ok st' ∧
    active_grid st' = 0 ∧ inactive_grid st' = 1 ∧ buffer_dead st' 1.
Proof.
  split; [exact crowded_reachable|].
  destruct (randomize_clears_inactive_buffer crowded crowded_reachable)
    as (st' & E & Ha & Hina & _ & _ & _ & _ & Hdead).
  exists st'. split; [exact E|]. split; [exact Ha|].
  split; [exact Hina|exact Hdead].
Defined.

(** ** The main loop *)

(** One iteration of [run] keeps the state reachable. *)
Lemma tick_reachable evs st st' :
  reachable st → tick evs st = Ok st' → reachable st'.
Proof.
  intros Hst. unfold tick. intros H.
  destruct (handle_events evs st) as [s1|] eqn:E1; simpl in H; [|done].
  pose proof (reach_handle_events evs st s1 Hst E1) as Hs1.
  destruct (paused s1); [by simplify_eq|].
  destruct (update_generation s1) as [s2|] eqn:E2; simpl in H; [|done].
  destruct (draw_grid s2); simpl in H; [|done]. simplify_eq.
  exact (reach_update_generation s1 st' Hs1 E2).
Qed.

(** While no window-close event arrives, an iteration of [run] from a
    reachable state does not raise. *)
Lemma handle_events_total evs st :
  wf st → QUIT ∉ evs → ∃ st', handle_events evs st = Ok st'.
Proof.
  revert st. induction evs as [|ev evs IH]; intros st Hst Hq; simpl; [eauto|].
  apply not_elem_of_cons in Hq as [Hne Hq].
  destruct (handle_event_total ev st) as (s & Es); [by destruct Hst|done|].
  rewrite Es. simpl. apply IH; [|done]. by eapply handle_event_wf.
Qed.

Lemma tick_total evs st :
  reachable st → QUIT ∉ evs → ∃ st', tick evs st = Ok st'.
Proof.
  intros Hst Hq.
  destruct (handle_events_total evs st) as (s1 & E1);
    [by apply reachable_wf|done|].
  unfold tick. rewrite E1. simpl.
  pose proof (reach_handle_events evs st s1 Hst E1) as Hs1.
  destruct (paused s1); [eauto|].
  destruct (update_generation_spec s1)
    as (s2 & E2 & HR & HC & _ & _ & _ & Ha & Hsh & _).
  { by apply reachable_wf. }
  rewrite E2. simpl.
  destruct (draw_grid_total s2) as (frame & ->); [|simpl; eauto].
  split; [by rewrite HR, HC|]. rewrite Ha. apply inactive_grid_range.
Qed.

(** * Further properties of the code *)

(** ** Construction *)

Section construction.
Import Py PyFacts.

Lemma range_lookup n i : 0 <= i < n → range n !! Z.to_nat i = Some i.
Proof.
  intros ?. unfold range. rewrite list_lookup_fmap, lookup_seq_lt by lia.
  simpl. f_equal. lia.
Qed.

Lemma create_grid_cell st gs r c :
  in_grid st r c → cell_at (gs ++ [create_grid st]) (len gs) r c = Some 0.
Proof.
  intros [Hr Hc]. unfold cell_at, len. rewrite Nat2Z.id.
  rewrite lookup_app_r, Nat.sub_diag by done. simpl.
  unfold create_grid. rewrite list_lookup_fmap, range_lookup by done. simpl.
  apply lookup_replicate_2. lia.
Qed.

(** X1: constructing a game with non-negative dimensions returns
    normally: buffer 0 is active and holds, in row-major order, the
    first [rows * cols] draws of [random.randint(0, 1)], buffer 1 is
    entirely dead, the game is neither paused nor over, and exactly
    [rows * cols] draws were consumed. *)
Theorem init_fresh_game rows cols g :
  0 <= rows → 0 <= cols →
  ∃ st, init rows cols g = Ok st ∧ shaped st ∧
    num_rows st = rows ∧ num_cols st = cols ∧ active_grid st = 0 ∧
    paused st = false ∧ game_over st = false ∧
    (∀ r c, in_grid st r c →
       cell_at (grids st) 0 r c
       = Some (Z.b2z (g (Z.to_nat (r * cols + c))))) ∧
    buffer_dead st 1 ∧
    (∀ n, rng st n = g (n + Z.to_nat (rows * cols))%nat).
Proof.
  intros HR HC. unfold init.
  set (st00 := Build_LifeGame rows cols [] 0 false false g).
  set (st0 := init_grids st00).
  assert (Hst0 : shaped st0).
  { subst st0. unfold init_grids. split; [|by left]. split; [done|]. simpl.
    repeat constructor; by apply (create_grid_shape st00). }
  destruct (set_grid_spec None 0 st0 Hst0)
    as (s1 & -> & Hf & Hsh & Hoth & Hrng & Hcells); [by left|].
  destruct Hf as (HR1 & HC1 & Ha1 & _). simpl.
  eexists. split; [done|]. simpl in *. split_and!; try done.
  - split; simpl; [by rewrite HR1, HC1|]. rewrite Ha1. by left.
  - intros r c [Hr Hc]. simpl in *. apply Hcells. split; simpl; lia.
  - intros r c [Hr Hc]. simpl in *. unfold cell_at.
    change (Z.to_nat 1) with (Z.to_nat (1 - 0)). rewrite Hoth.
    apply (create_grid_cell (with_grids [create_grid st00] st00)
             [create_grid st00] r c).
    split; simpl; lia.
Qed.

Lemma init_fresh_game_witness :
  0 <= 3 ∧ 0 <= 3 ∧
  ∃ st, init 3 3 (λ _, true) = Ok st ∧ active_grid st = 0 ∧
        buffer_dead st 1.
Proof.
  assert (H3 : 0 <= 3) by lia.
  split; [exact H3|]. split; [exact H3|].
  destruct (init_fresh_game 3 3 (λ _, true) H3 H3)
    as (st & E & _ & _ & _ & Ha & _ & _ & _ & Hdead & _).
  exists st. split; [exact E|]. split; [exact Ha|exact Hdead].
Defined.

End construction.

(** ** Filling a buffer *)

Section filling.
Import Py PyFacts.

(** X2: filling the active buffer with a literal never raises on a
    shaped state; afterwards [get_cell] reads that literal at every
    in-range coordinate, and the other buffer, the random stream, the
    flags and the dimensions are as before. *)
Theorem set_grid_then_get_cell st v :
  shaped st →
  ∃ st', set_grid (Some v) (active_grid st) st = Ok st' ∧
    (∀ r c, in_grid st r c → get_cell r c st' = v) ∧
    grids st' !! Z.to_nat (inactive_grid st)
      = grids st !! Z.to_nat (inactive_grid st) ∧
    (∀ n, rng st' n = rng st n) ∧ same_frame st' st.
Proof.
  intros Hst. pose proof Hst as [Hs Ha].
  destruct (set_grid_spec (Some v) (active_grid st) st Hst Ha)
    as (st' & E & Hf & Hsh & Hoth & Hrng & Hcells).
  exists st'. split; [done|]. pose proof Hf as (HR & HC & Hact & _).
  assert (Hst' : shaped st').
  { split; [by rewrite HR, HC|]. by rewrite Hact. }
  split_and!; try done.
  - intros r c Hin. rewrite get_cell_in_grid; try done.
    + unfold active_cell. rewrite Hact, Hcells by done. done.
    + unfold in_grid. by rewrite HR, HC.
  - by rewrite inactive_grid_flip.
Qed.

Lemma set_grid_then_get_cell_witness :
  shaped crowded ∧
  ∃ st', set_grid (Some 0) (active_grid crowded) crowded = Ok st' ∧
         ∀ r c, in_grid crowded r c → get_cell r c st' = 0.
Proof.
  assert (Hst : shaped crowded) by concrete_wf.
  split; [exact Hst|].
  destruct (set_grid_then_get_cell crowded 0 Hst) as (st' & E & Hget & _).
  exists st'. split; [exact E|exact Hget].
Defined.

(** X3: a random fill of buffer 0 or 1 never raises on a shaped state;
    it consumes exactly [num_rows * num_cols] draws, cell [(r, c)]
    receives draw number [r * num_cols + c], and the other buffer is
    untouched. *)
Theorem set_grid_random_draws st g :
  shaped st → g = 0 ∨ g = 1 →
  ∃ st', set_grid None g st = Ok st' ∧
    (∀ r c, in_grid st r c →
       cell_at (grids st') g r c
       = Some (Z.b2z (rng st (Z.to_nat (r * num_cols st + c))))) ∧
    (∀ n, rng st' n
          = rng st (n + Z.to_nat (num_rows st * num_cols st))%nat) ∧
    grids st' !! Z.to_nat (1 - g) = grids st !! Z.to_nat (1 - g) ∧
    same_frame st' st.
Proof.
  intros Hst Hg.
  destruct (set_grid_spec None g st Hst Hg)
    as (st' & E & Hf & Hsh & Hoth & Hrng & Hcells).
  exists st'. split_and!; done.
Qed.

Lemma set_grid_random_draws_witness :
  shaped barren ∧ (1 = 0 ∨ 1 = 1) ∧
  ∃ st', set_grid None 1 barren = Ok st' ∧
    ∀ n, rng st' n
         = rng barren (n + Z.to_nat (num_rows barren * num_cols barren))%nat.
Proof.
  assert (Hst : shaped barren) by concrete_wf.
  assert (Hg : 1 = 0 ∨ 1 = 1) by (right; reflexivity).
  split; [exact Hst|]. split; [exact Hg|].
  destruct (set_grid_random_draws barren 1 Hst Hg) as (st' & E & _ & Hrng & _).
  exists st'. split; [exact E|exact Hrng].
Defined.

Lemma range_pos n : 0 < n → range n = 0 :: (Z.of_nat <$> seq 1 (Z.to_nat n - 1)).
Proof.
  intros Hn. unfold range.
  destruct (Z.to_nat n) as [|k] eqn:E; [lia|].
  simpl. by rewrite Nat.sub_0_r.
Qed.

(** X4: on a game with at least one cell, a buffer selector outside
    [-2, 2) makes [set_grid] raise [IndexError], whatever the fill. *)
Theorem set_grid_bad_selector st value g :
  shaped st → 0 < num_rows st → 0 < num_cols st →
  g < -2 ∨ 2 <= g →
  set_grid value g st = Raise IndexError.
Proof.
  intros [[Hlen _] _] HR HC Hg. unfold set_grid.
  rewrite (range_pos (num_rows st)) by done. simpl.
  rewrite (range_pos (num_cols st)) by done. simpl.
  assert (Hstore : ∀ gs v, length gs = 2%nat →
            store_cell gs g 0 0 v = Raise IndexError).
  { intros gs v Hgs. unfold store_cell, getitem, len.
    rewrite Hgs, norm_out by lia. done. }
  destruct value as [v|]; simpl; by rewrite Hstore.
Qed.

Lemma set_grid_bad_selector_witness :
  shaped crowded ∧ 0 < num_rows crowded ∧ 0 < num_cols crowded ∧
  (2 < -2 ∨ 2 <= 2) ∧
  set_grid (Some 0) 2 crowded = Raise IndexError.
Proof.
  assert (Hst : shaped crowded) by concrete_wf.
  assert (HR : 0 < num_rows crowded) by (simpl; lia).
  assert (HC : 0 < num_cols crowded) by (simpl; lia).
  assert (Hg : 2 < -2 ∨ 2 <= 2) by lia.
  split_and!; try assumption.
  exact (set_grid_bad_selector crowded (Some 0) 2 Hst HR HC Hg).
Defined.

Lemma for_each_noop {St} xs (body : Z → St → result St) (s : St) :
  (∀ x, body x s = Ok s) → for_each xs body s = Ok s.
Proof.
  intros Hbody. induction xs as [|x xs IH]; simpl; [done|].
  by rewrite Hbody.
Qed.

(** X5: on a game without cells (no rows, or no columns) [set_grid]
    returns the state as it is for every fill and every buffer selector,
    valid or not, and draws no random number. *)
Theorem set_grid_no_cells st value g :
  num_rows st <= 0 ∨ num_cols st <= 0 → set_grid value g st = Ok st.
Proof.
  intros Hdim. unfold set_grid.
  destruct (decide (num_rows st <= 0)) as [HR|HR].
  - unfold range. by replace (Z.to_nat (num_rows st)) with 0%nat by lia.
  - apply for_each_noop. intros r.
    unfold range. by replace (Z.to_nat (num_cols st)) with 0%nat by lia.
Qed.

Lemma set_grid_no_cells_witness :
  (num_rows gridless <= 0 ∨ num_cols gridless <= 0) ∧
  set_grid None 7 gridless = Ok gridless.
Proof.
  assert (Hdim : num_rows gridless <= 0 ∨ num_cols gridless <= 0)
    by (left; simpl; lia).
  split; [exact Hdim|].
  exact (set_grid_no_cells gridless None 7 Hdim).
Defined.

End filling.

(** ** Reading cells *)

Section reading.
Import Py PyFacts.

(** X6: on a shaped state [get_cell] answers 0 for a row index at or
    beyond [num_rows] or below [- num_rows], and for a column index at
    or beyond [num_cols] or below [- num_cols]. *)
Theorem get_cell_beyond_bounds st r c :
  shaped st →
  r < - num_rows st ∨ num_rows st <= r ∨
  c < - num_cols st ∨ num_cols st <= c →
  get_cell r c st = 0.
Proof. intros Hst Hout. by apply get_cell_out. Qed.

Lemma get_cell_beyond_bounds_witness :
  shaped crowded ∧
  (3 < - num_rows crowded ∨ num_rows crowded <= 3 ∨
   0 < - num_cols crowded ∨ num_cols crowded <= 0) ∧
  get_cell 3 0 crowded = 0.
Proof.
  assert (Hst : shaped crowded) by concrete_wf.
  assert (Hout : 3 < - num_rows crowded ∨ num_rows crowded <= 3 ∨
                 0 < - num_cols crowded ∨ num_cols crowded <= 0)
    by (simpl; lia).
  split; [exact Hst|]. split; [exact Hout|].
  exact (get_cell_beyond_bounds crowded 3 0 Hst Hout).
Defined.

Lemma wrap_mod n i : - n <= i < n → wrap n i = Some (i `mod` n).
Proof.
  intros Hi. destruct (decide (0 <= i)) as [Hpos|Hneg].
  - rewrite wrap_in by lia. by rewrite Z.mod_small by lia.
  - rewrite wrap_neg by lia. f_equal.
    apply (Z.mod_unique_pos i n (-1)); lia.
Qed.

(** X7: for a row index in [- num_rows, num_rows) and a column index in
    [- num_cols, num_cols), [get_cell] reads the active buffer at the
    indices reduced modulo the dimensions: negative indices count from
    the far end. *)
Theorem get_cell_modular st r c :
  shaped st →
  - num_rows st <= r < num_rows st →
  - num_cols st <= c < num_cols st →
  cell_at (grids st) (active_grid st)
    (r `mod` num_rows st) (c `mod` num_cols st)
  = Some (get_cell r c st).
Proof.
  intros Hst Hr Hc. rewrite get_cell_wrap by done.
  rewrite !wrap_mod by done.
  pose proof (Z.mod_pos_bound r (num_rows st) ltac:(lia)).
  pose proof (Z.mod_pos_bound c (num_cols st) ltac:(lia)).
  destruct Hst as [Hs Ha].
  destruct (cell_at_is_Some _ _ _ (active_grid st)
              (r `mod` num_rows st) (c `mod` num_cols st) Hs Ha)
    as (v & Hv); [done|done|].
  unfold active_cell. by rewrite Hv.
Qed.

Lemma get_cell_modular_witness :
  shaped lonely ∧
  (- num_rows lonely <= -2 < num_rows lonely) ∧
  (- num_cols lonely <= 1 < num_cols lonely) ∧
  cell_at (grids lonely) (active_grid lonely)
    ((-2) `mod` num_rows lonely) (1 `mod` num_cols lonely)
  = Some (get_cell (-2) 1 lonely).
Proof.
  assert (Hst : shaped lonely) by concrete_wf.
  assert (Hr : - num_rows lonely <= -2 < num_rows lonely) by (simpl; lia).
  assert (Hc : - num_cols lonely <= 1 < num_cols lonely) by (simpl; lia).
  split; [exact Hst|]. split; [exact Hr|]. split; [exact Hc|].
  exact (get_cell_modular lonely (-2) 1 Hst Hr Hc).
Defined.

(** X8: on a well-formed state the neighbour count of any coordinate,
    inside the grid or not, lies between 0 and 8. *)
Theorem num_alive_neighbors_range st r c :
  wf st → 0 <= num_alive_neighbors r c st <= 8.
Proof. intros Hwf. by apply num_alive_neighbors_bounds. Qed.

Lemma num_alive_neighbors_range_witness :
  wf crowded ∧ 0 <= num_alive_neighbors 0 0 crowded <= 8.
Proof.
  assert (Hwf : wf crowded) by concrete_wf.
  split; [exact Hwf|].
  exact (num_alive_neighbors_range crowded 0 0 Hwf).
Defined.

Lemma load_cell_out R C gs g r c :
  grids_shape R C gs → g = 0 ∨ g = 1 →
  r < - R ∨ R <= r ∨ c < - C ∨ C <= c →
  load_cell gs g r c = Raise IndexError.
Proof.
  intros Hs Hg Hout.
  destruct (grids_shape_lookup R C gs (Z.to_nat g) Hs) as (buf & Hbuf & Hb); [lia|].
  unfold load_cell. rewrite (getitem_pos gs g buf) by (done || lia). simpl.
  pose proof Hb as [Hblen _]. rewrite getitem_wrap, Hblen.
  destruct (wrap R r) as [r'|] eqn:Er; simpl; [|done].
  pose proof (wrap_range _ _ _ Er) as Hr'.
  destruct (grid_shape_lookup R C buf r' Hb Hr') as (row & -> & Hl).
  simpl. rewrite getitem_wrap, Hl.
  destruct (wrap C c) as [c'|] eqn:Ec; simpl; [|done].
  exfalso. unfold wrap in *. repeat case_decide; simplify_eq; lia.
Qed.

(** X9: [check_cell_neighbors] has no handler around its own read of
    the cell: on a shaped state, a row index at or beyond [num_rows] or
    below [- num_rows], or such a column index, makes it raise
    [IndexError]. *)
Theorem check_cell_neighbors_out_of_range st r c :
  shaped st →
  r < - num_rows st ∨ num_rows st <= r ∨
  c < - num_cols st ∨ num_cols st <= c →
  check_cell_neighbors r c st = Raise IndexError.
Proof.
  intros [Hs Ha] Hout. unfold check_cell_neighbors.
  by rewrite (load_cell_out _ _ _ _ _ _ Hs Ha Hout).
Qed.

Lemma check_cell_neighbors_out_of_range_witness :
  shaped crowded ∧
  (3 < - num_rows crowded ∨ num_rows crowded <= 3 ∨
   0 < - num_cols crowded ∨ num_cols crowded <= 0) ∧
  check_cell_neighbors 3 0 crowded = Raise IndexError.
Proof.
  assert (Hst : shaped crowded) by concrete_wf.
  assert (Hout : 3 < - num_rows crowded ∨ num_rows crowded <= 3 ∨
                 0 < - num_cols crowded ∨ num_cols crowded <= 0)
    by (simpl; lia).
  split; [exact Hst|]. split; [exact Hout|].
  exact (check_cell_neighbors_out_of_range crowded 3 0 Hst Hout).
Defined.

Lemma active_is_read_dead_outside st :
  shaped st → active_is st (read_dead_outside st).
Proof.
  intros [Hs Ha] r c Hin. pose proof Hin as [Hr Hc].
  destruct (cell_at_is_Some _ _ _ (active_grid st) r c Hs Ha Hr Hc) as (v & Hv).
  unfold read_dead_outside, active_cell. rewrite decide_True by done.
  by rewrite Hv.
Qed.

Lemma read_dead_outside_border st r c :
  bordered st → r = num_rows st - 1 ∨ c = num_cols st - 1 →
  read_dead_outside st r c = 0.
Proof.
  intros Hb Hlast. unfold read_dead_outside. case_decide as Hin; [|done].
  unfold active_cell. by rewrite Hb.
Qed.

Lemma get_cell_read_dead_outside st r c :
  shaped st → bordered st → -1 <= r → -1 <= c →
  get_cell r c st = read_dead_outside st r c.
Proof.
  intros Hst Hb Hr Hc.
  rewrite (get_cell_bordered st (read_dead_outside st)); try done.
  - case_decide as Hin; [done|]. unfold read_dead_outside.
    by rewrite decide_False.
  - by apply active_is_read_dead_outside.
  - intros c'. apply read_dead_outside_border; auto.
  - intros r'. apply read_dead_outside_border; auto.
Qed.

(** When the last row and column are dead the count is the Moore sum
    with everything outside the grid dead. *)
Lemma num_alive_neighbors_bordered st r c :
  shaped st → bordered st → 0 <= r → 0 <= c →
  num_alive_neighbors r c st = moore_sum_dead_outside st r c.
Proof.
  intros Hst Hb Hr Hc.
  unfold num_alive_neighbors, find_alive_neighbors, moore_sum_dead_outside.
  by rewrite !get_cell_read_dead_outside by (done || lia).
Qed.

Lemma update_generation_bordered st :
  shaped st →
  ∃ st', update_generation st = Ok st' ∧ shaped st' ∧ bordered st' ∧
    num_rows st' = num_rows st ∧ num_cols st' = num_cols st.
Proof.
  intros Hst.
  destruct (update_generation_spec st Hst)
    as (st' & E & HR & HC & _ & _ & _ & Ha & Hsh & _ & _ & Hlast).
  exists st'. split_and!; try done.
  - split; [by rewrite HR, HC|]. rewrite Ha. apply inactive_grid_range.
  - intros r c [Hr Hc] Hl. rewrite HR in Hr, Hl. rewrite HC in Hc, Hl.
    rewrite Ha. by apply Hlast.
Qed.

(** X10: in the state that [update_generation] returns from a reachable
    state, the neighbour count of every cell of the grid is the Moore
    sum with all positions outside the grid dead: the reads at index -1
    land on the last row or column, which the update left dead. *)
Theorem num_alive_neighbors_after_update st :
  reachable st →
  ∃ st', update_generation st = Ok st' ∧
    ∀ r c, in_grid st' r c →
      num_alive_neighbors r c st' = moore_sum_dead_outside st' r c.
Proof.
  intros [Hst _]%reachable_wf.
  destruct (update_generation_bordered st Hst) as (st' & E & Hst' & Hb & _).
  exists st'. split; [done|]. intros r c [Hr Hc].
  apply num_alive_neighbors_bordered; try done; lia.
Qed.

Lemma num_alive_neighbors_after_update_witness :
  reachable crowded ∧
  ∃ st', update_generation crowded = Ok st' ∧
    ∀ r c, in_grid st' r c →
      num_alive_neighbors r c st' = moore_sum_dead_outside st' r c.
Proof.
  split; [exact crowded_reachable|].
  exact (num_alive_neighbors_after_update crowded crowded_reachable).
Defined.

End reading.

(** ** Generations *)

Section generations.
Import Py PyFacts.

Lemma grid_ext R C (b1 b2 : grid) :
  grid_shape R C b1 → grid_shape R C b2 →
  (∀ r c, 0 <= r < R → 0 <= c < C →
     (row ← b1 !! Z.to_nat r; row !! Z.to_nat c)
     = (row ← b2 !! Z.to_nat r; row !! Z.to_nat c)) →
  b1 = b2.
Proof.
  intros [Hl1 Hr1] [Hl2 Hr2] Hcells. unfold len in *.
  apply list_eq. intros i.
  destruct (decide (i < length b1)%nat) as [Hi|Hi].
  - destruct (lookup_lt_is_Some_2 b1 i Hi) as [row1 E1].
    destruct (lookup_lt_is_Some_2 b2 i ltac:(lia)) as [row2 E2].
    rewrite E1, E2. f_equal.
    pose proof (Forall_lookup_1 _ _ _ _ Hr1 E1) as Hc1.
    pose proof (Forall_lookup_1 _ _ _ _ Hr2 E2) as Hc2.
    simpl in Hc1, Hc2. unfold len in *.
    apply list_eq. intros j.
    destruct (decide (j < length row1)%nat) as [Hj|Hj].
    + specialize (Hcells (Z.of_nat i) (Z.of_nat j) ltac:(lia) ltac:(lia)).
      rewrite !Nat2Z.id, E1, E2 in Hcells. done.
    + rewrite !(proj2 (lookup_ge_None _ _)) by lia. done.
  - rewrite !(proj2 (lookup_ge_None _ _)) by lia. done.
Qed.

(** X11: the result of [update_generation] does not depend on what the
    inactive buffer held: two shaped states with the same dimensions,
    the same active index and the same active buffer are taken to
    states with the same two buffers and the same active index. *)
Theorem update_generation_ignores_inactive_buffer st1 st2 :
  shaped st1 → shaped st2 →
  num_rows st1 = num_rows st2 → num_cols st1 = num_cols st2 →
  active_grid st1 = active_grid st2 →
  grids st1 !! Z.to_nat (active_grid st2)
    = grids st2 !! Z.to_nat (active_grid st2) →
  ∃ s1 s2, update_generation st1 = Ok s1 ∧ update_generation st2 = Ok s2 ∧
    grids s1 = grids s2 ∧ active_grid s1 = active_grid s2.
Proof.
  intros Hst1 Hst2 HR HC Hact Hbuf.
  destruct (update_generation_spec st1 Hst1)
    as (s1 & E1 & _ & _ & _ & _ & _ & Ha1 & Hsh1 & Hold1 & Hnext1 & Hlast1).
  destruct (update_generation_spec st2 Hst2)
    as (s2 & E2 & _ & _ & _ & _ & _ & Ha2 & Hsh2 & Hold2 & Hnext2 & Hlast2).
  exists s1, s2. split; [done|]. split; [done|].
  assert (Hina : inactive_grid st1 = inactive_grid st2).
  { unfold inactive_grid. by rewrite Hact. }
  split; [|by rewrite Ha1, Ha2].
  pose proof Hst1 as [[Hlen1 _] _]. pose proof Hst2 as [[Hlen2 _] Har2].
  rewrite HR, HC, Hact in *. rewrite Hina in *.
  set (a := active_grid st2) in *. set (ina := inactive_grid st2) in *.
  assert (Hina' : ina = 1 - a) by (by apply inactive_grid_flip).
  destruct (grids_shape_lookup _ _ _ (Z.to_nat ina) Hsh1) as (b1 & Eb1 & Hb1);
    [lia|].
  destruct (grids_shape_lookup _ _ _ (Z.to_nat ina) Hsh2) as (b2 & Eb2 & Hb2);
    [lia|].
  assert (Hb : b1 = b2).
  { apply (grid_ext _ _ _ _ Hb1 Hb2). intros r c Hr Hc.
    assert (Hcell : cell_at (grids s1) ina r c = cell_at (grids s2) ina r c).
    { destruct (decide (r = num_rows st2 - 1 ∨ c = num_cols st2 - 1)).
      - rewrite Hlast1, Hlast2; try done;
          unfold in_grid; rewrite ?HR, ?HC; lia.
      - destruct (Hnext1 r c) as (v1 & Hv1 & ->); [lia|lia|].
        destruct (Hnext2 r c) as (v2 & Hv2 & ->); [lia|lia|].
        rewrite (check_cell_neighbors_active_cong st1 st2 Hact Har2
                   Hlen1 Hlen2 Hbuf) in Hv1.
        congruence. }
    unfold cell_at in Hcell. by rewrite Eb1, Eb2 in Hcell. }
  destruct Hsh1 as [Hl1 _]. destruct Hsh2 as [Hl2 _].
  apply list_eq. intros i.
  destruct (decide (i = Z.to_nat a)) as [->|Hia].
  { by rewrite Hold1, Hold2. }
  destruct (decide (i = Z.to_nat ina)) as [->|Hiina].
  { by rewrite Eb1, Eb2, Hb. }
  rewrite !(proj2 (lookup_ge_None _ _)) by lia. done.
Qed.

Lemma update_generation_ignores_inactive_buffer_witness :
  shaped crowded ∧ shaped (with_grids (upd (grids crowded) 1 1 1 1) crowded) ∧
  ∃ s1 s2,
    update_generation crowded = Ok s1 ∧
    update_generation (with_grids (upd (grids crowded) 1 1 1 1) crowded)
      = Ok s2 ∧
    grids s1 = grids s2.
Proof.
  assert (H1 : shaped crowded) by concrete_wf.
  assert (H2 : shaped (with_grids (upd (grids crowded) 1 1 1 1) crowded))
    by concrete_wf.
  split; [exact H1|]. split; [exact H2|].
  destruct (update_generation_ignores_inactive_buffer crowded
              (with_grids (upd (grids crowded) 1 1 1 1) crowded) H1 H2
              eq_refl eq_refl eq_refl eq_refl)
    as (s1 & s2 & E1 & E2 & Hg & _).
  exists s1, s2. split; [exact E1|]. split; [exact E2|exact Hg].
Defined.

(** X12: two calls of [update_generation] from a reachable state return
    normally; the first moves the active index to the other buffer and
    the second moves it back. *)
Theorem update_generation_twice_restores_index st :
  reachable st →
  ∃ st1 st2, update_generation st = Ok st1 ∧ update_generation st1 = Ok st2 ∧
    active_grid st1 = 1 - active_grid st ∧
    active_grid st2 = active_grid st.
Proof.
  intros Hre. pose proof (reachable_wf st Hre) as [Hst _].
  destruct (update_generation_spec st Hst)
    as (st1 & E1 & _ & _ & _ & _ & _ & Ha1 & _).
  pose proof (reach_update_generation st st1 Hre E1) as Hre1.
  pose proof (reachable_wf st1 Hre1) as [Hst1 _].
  destruct (update_generation_spec st1 Hst1)
    as (st2 & E2 & _ & _ & _ & _ & _ & Ha2 & _).
  exists st1, st2. split; [done|]. split; [done|].
  destruct Hst as [_ Ha]. destruct Hst1 as [_ Ha'].
  rewrite inactive_grid_flip in Ha1, Ha2 by done. lia.
Qed.

Lemma update_generation_twice_restores_index_witness :
  reachable crowded ∧
  ∃ st1 st2,
    update_generation crowded = Ok st1 ∧ update_generation st1 = Ok st2 ∧
    active_grid st2 = active_grid crowded.
Proof.
  split; [exact crowded_reachable|].
  destruct (update_generation_twice_restores_index crowded crowded_reachable)
    as (st1 & st2 & E1 & E2 & _ & Ha).
  exists st1, st2. split; [exact E1|]. split; [exact E2|exact Ha].
Defined.

(** X13: a game with at most one row, or at most one column, is entirely
    dead after one [update_generation], whatever it held: no cell is off
    the last row and the last column, so none is written. *)
Theorem update_generation_thin_grid_dies st :
  shaped st → num_rows st <= 1 ∨ num_cols st <= 1 →
  ∃ st', update_generation st = Ok st' ∧ buffer_dead st' (active_grid st').
Proof.
  intros Hst Hthin.
  destruct (update_generation_spec st Hst)
    as (st' & E & HR & HC & _ & _ & _ & Ha & _ & _ & _ & Hlast).
  exists st'. split; [done|]. intros r c [Hr Hc].
  rewrite HR in Hr. rewrite HC in Hc. rewrite Ha.
  apply Hlast; [done|]. lia.
Qed.

Lemma update_generation_thin_grid_dies_witness :
  shaped strip ∧ (num_rows strip <= 1 ∨ num_cols strip <= 1) ∧
  ∃ st', update_generation strip = Ok st' ∧
         buffer_dead st' (active_grid st').
Proof.
  assert (Hst : shaped strip) by concrete_wf.
  assert (Hthin : num_rows strip <= 1 ∨ num_cols strip <= 1)
    by (left; simpl; lia).
  split; [exact Hst|]. split; [exact Hthin|].
  exact (update_generation_thin_grid_dies strip Hst Hthin).
Defined.

(** For a pattern that is dead on the border and beyond, the reads of
    the neighbourhood of any cell of the grid see the pattern itself. *)
Lemma get_cell_off_border st f r c :
  shaped st → active_is st f → off_border st f →
  -1 <= r → -1 <= c → get_cell r c st = f r c.
Proof.
  intros Hst Hf Hoff Hr Hc.
  rewrite (get_cell_bordered st f); try done.
  - case_decide as Hin; [done|]. symmetry. apply Hoff.
    unfold in_grid in Hin. lia.
  - intros c'. apply Hoff. lia.
  - intros r'. apply Hoff. lia.
Qed.

Lemma update_generation_plane st f :
  shaped st → active_is st f → off_border st f →
  off_border st (plane_step f) →
  ∃ st', update_generation st = Ok st' ∧ shaped st' ∧
    num_rows st' = num_rows st ∧ num_cols st' = num_cols st ∧
    active_is st' (plane_step f).
Proof.
  intros Hst Hf Hoff Hoff'.
  destruct (update_generation_spec st Hst)
    as (st' & E & HR & HC & _ & _ & _ & Ha & Hsh & _ & Hnext & Hlast).
  exists st'. split_and!; try done.
  { split; [by rewrite HR, HC|]. rewrite Ha. apply inactive_grid_range. }
  intros r c [Hr Hc]. rewrite HR in Hr. rewrite HC in Hc. rewrite Ha.
  destruct (decide (r = num_rows st - 1 ∨ c = num_cols st - 1)) as [Hl|Hl].
  { rewrite Hlast by done. f_equal. symmetry. apply Hoff'. lia. }
  destruct (Hnext r c) as (v & Hv & ->); [lia|lia|]. f_equal.
  destruct (check_cell_neighbors_in_range st r c Hst) as (cur & Hcur & Hchk);
    [done|].
  rewrite Hf in Hcur by done. injection Hcur as <-.
  rewrite Hchk in Hv. injection Hv as <-.
  unfold num_alive_neighbors, plane_step.
  by rewrite !(get_cell_off_border st f) by (done || lia).
Qed.

(** X14: for a pattern that is dead on the last row, the last column and
    beyond, and whose successor on the unbounded plane is too,
    [update_generation] computes exactly that successor. *)
Theorem update_generation_agrees_with_plane st f :
  shaped st → active_is st f → off_border st f →
  off_border st (plane_step f) →
  ∃ st', update_generation st = Ok st' ∧ active_is st' (plane_step f).
Proof.
  intros Hst Hf Hoff Hoff'.
  destruct (update_generation_plane st f Hst Hf Hoff Hoff')
    as (st' & E & _ & _ & _ & Hf').
  by exists st'.
Qed.

Lemma plane_step_blinker o r0 c0 r c :
  plane_step (blinker o r0 c0) r c = blinker (turn o) r0 c0 r c.
Proof. apply blinker_rule. Qed.

Lemma update_generation_agrees_with_plane_witness :
  shaped blinking ∧ active_is blinking (blinker Vertical 2 2) ∧
  off_border blinking (blinker Vertical 2 2) ∧
  off_border blinking (plane_step (blinker Vertical 2 2)) ∧
  ∃ st', update_generation blinking = Ok st' ∧
         active_is st' (plane_step (blinker Vertical 2 2)).
Proof.
  assert (Hst : shaped blinking) by concrete_wf.
  assert (Hf : active_is blinking (blinker Vertical 2 2)) by each_cell.
  assert (Hoff : off_border blinking (blinker Vertical 2 2)).
  { intros r c Hout. apply blinker_far. simpl in Hout. lia. }
  assert (Hoff' : off_border blinking (plane_step (blinker Vertical 2 2))).
  { intros r c Hout. rewrite plane_step_blinker. apply blinker_far.
    simpl in Hout. lia. }
  split; [exact Hst|]. split; [exact Hf|]. split; [exact Hoff|].
  split; [exact Hoff'|].
  exact (update_generation_agrees_with_plane blinking _ Hst Hf Hoff Hoff').
Defined.

Lemma block_rule r0 c0 r c : plane_step (block r0 c0) r c = block r0 c0 r c.
Proof.
  assert (Hr : r < r0 - 1 ∨ r = r0 - 1 ∨ r = r0 ∨ r = r0 + 1 ∨ r = r0 + 2
               ∨ r0 + 2 < r) by lia.
  assert (Hc : c < c0 - 1 ∨ c = c0 - 1 ∨ c = c0 ∨ c = c0 + 1 ∨ c = c0 + 2
               ∨ c0 + 2 < c) by lia.
  unfold plane_step, block;
    destruct Hr as [Hr|[Hr|[Hr|[Hr|[Hr|Hr]]]]];
    destruct Hc as [Hc|[Hc|[Hc|[Hc|[Hc|Hc]]]]];
    decide_tests; reflexivity.
Qed.

Lemma block_far r0 c0 r c :
  r < r0 ∨ r0 + 1 < r ∨ c < c0 ∨ c0 + 1 < c → block r0 c0 r c = 0.
Proof.
  intros H. unfold block.
  repeat match goal with
  | |- context [?a <=? ?b] => destruct (Z.leb_spec a b)
  end; simpl; first [done | lia].
Qed.

(** X15: a 2 × 2 block whose cells lie off the last row and the last
    column, all other cells dead, is left as it is by
    [update_generation] (a still life). *)
Theorem block_still_life st r0 c0 :
  shaped st →
  0 <= r0 ∧ r0 + 1 < num_rows st - 1 →
  0 <= c0 ∧ c0 + 1 < num_cols st - 1 →
  active_is st (block r0 c0) →
  ∃ st', update_generation st = Ok st' ∧ active_is st' (block r0 c0).
Proof.
  intros Hst Hrows Hcols Hf.
  destruct (update_generation_plane st (block r0 c0) Hst Hf)
    as (st' & E & _ & _ & _ & Hf').
  - intros r c Hout. apply block_far. lia.
  - intros r c Hout. rewrite block_rule. apply block_far. lia.
  - exists st'. split; [done|]. intros r c Hin.
    rewrite Hf' by done. by rewrite block_rule.
Qed.

Lemma block_still_life_witness :
  shaped boxed ∧
  (0 <= 1 ∧ 1 + 1 < num_rows boxed - 1) ∧
  (0 <= 1 ∧ 1 + 1 < num_cols boxed - 1) ∧
  active_is boxed (block 1 1) ∧
  ∃ st', update_generation boxed = Ok st' ∧ active_is st' (block 1 1).
Proof.
  assert (Hst : shaped boxed) by concrete_wf.
  assert (Hrows : 0 <= 1 ∧ 1 + 1 < num_rows boxed - 1) by (simpl; lia).
  assert (Hcols : 0 <= 1 ∧ 1 + 1 < num_cols boxed - 1) by (simpl; lia).
  assert (Hf : active_is boxed (block 1 1)) by each_cell.
  split; [exact Hst|]. split; [exact Hrows|]. split; [exact Hcols|].
  split; [exact Hf|].
  exact (block_still_life boxed 1 1 Hst Hrows Hcols Hf).
Defined.

(** X16: when the last row and the last column of the active buffer are
    dead, [update_generation] returns the Life successor computed with
    everything outside the grid dead, for the cells off the last row and
    column, and leaves those two dead again. *)
Theorem update_generation_life_step st :
  shaped st → bordered st →
  ∃ st', update_generation st = Ok st' ∧
    active_is st' (life_step st) ∧ bordered st'.
Proof.
  intros Hst Hb.
  destruct (update_generation_spec st Hst)
    as (st' & E & HR & HC & _ & _ & _ & Ha & Hsh & _ & Hnext & Hlast).
  exists st'. split; [done|]. split.
  - intros r c [Hr Hc]. rewrite HR in Hr. rewrite HC in Hc. rewrite Ha.
    unfold life_step. case_decide as Hl.
    + destruct (Hnext r c) as (v & Hv & ->); [lia|lia|]. f_equal.
      destruct (check_cell_neighbors_in_range st r c Hst)
        as (cur & Hcur & Hchk); [done|].
      rewrite Hchk in Hv. injection Hv as <-.
      unfold active_cell. rewrite Hcur. simpl.
      by rewrite num_alive_neighbors_bordered by (done || lia).
    + apply Hlast; [done|lia].
  - intros r c [Hr Hc] Hl. rewrite HR in Hr, Hl. rewrite HC in Hc, Hl.
    rewrite Ha. by apply Hlast.
Qed.

Lemma update_generation_life_step_witness :
  shaped lonely ∧ bordered lonely ∧
  ∃ st', update_generation lonely = Ok st' ∧
         active_is st' (life_step lonely) ∧ bordered st'.
Proof.
  assert (Hst : shaped lonely) by concrete_wf.
  assert (Hb : bordered lonely).
  { intros r c [Hr Hc] Hl. simpl in Hr, Hc, Hl.
    assert (r = 0 ∨ r = 1 ∨ r = 2) as [->|[->| ->]] by lia;
      assert (c = 0 ∨ c = 1 ∨ c = 2) as [->|[->| ->]] by lia;
      first [reflexivity | lia]. }
  split; [exact Hst|]. split; [exact Hb|].
  exact (update_generation_life_step lonely Hst Hb).
Defined.

End generations.

(** ** Drawing *)

Section drawing.
Import Py PyFacts.

Lemma elem_of_range n x : x ∈ range n ↔ 0 <= x < n.
Proof.
  unfold range. rewrite list_elem_of_fmap. split.
  - intros (k & -> & Hk%elem_of_seq). lia.
  - intros Hx. exists (Z.to_nat x). split; [lia|]. apply elem_of_seq. lia.
Qed.

Lemma for_each_append {A} xs (f : Z → list A)
    (body : Z → list A → result (list A)) acc :
  (∀ x acc, x ∈ xs → body x acc = Ok (acc ++ f x)) →
  for_each xs body acc = Ok (acc ++ (xs ≫= f)).
Proof.
  revert acc. induction xs as [|x xs IH]; intros acc Hbody; simpl.
  - by rewrite app_nil_r.
  - rewrite Hbody by (by left). simpl.
    rewrite IH by (intros; apply Hbody; by right).
    by rewrite <- app_assoc.
Qed.

Lemma bind_unit_fmap {A B} (g : A → B) (xs : list A) :
  (xs ≫= λ x, [g x]) = g <$> xs.
Proof.
  induction xs as [|x xs IH]; [done|].
  rewrite bind_cons, IH. done.
Qed.

Lemma draw_grid_frame st : shaped st → draw_grid st = Ok (frame_of st).
Proof.
  intros [Hs Ha]. unfold draw_grid, frame_of.
  rewrite (for_each_append _
    (λ c, (λ r, (c, r, active_cell st r c =? 1)) <$> range (num_rows st)));
    [done|].
  intros c acc Hc%elem_of_range.
  rewrite (for_each_append _ (λ r, [(c, r, active_cell st r c =? 1)])).
  - by rewrite bind_unit_fmap.
  - intros r acc' Hr%elem_of_range.
    destruct (load_cell_in_range _ _ _ _ r c Hs Ha Hr Hc) as (v & Hv & ->).
    simpl. unfold active_cell. by rewrite Hv.
Qed.

Lemma length_bind_const {A B} (f : A → list B) (xs : list A) n :
  (∀ x, length (f x) = n) → length (xs ≫= f) = (length xs * n)%nat.
Proof.
  intros Hf. induction xs as [|x xs IH]; [done|].
  rewrite bind_cons, length_app, IH, Hf. simpl. lia.
Qed.

Lemma frame_of_length st :
  length (frame_of st) = (Z.to_nat (num_cols st) * Z.to_nat (num_rows st))%nat.
Proof.
  unfold frame_of.
  rewrite (length_bind_const _ _ (Z.to_nat (num_rows st))).
  - unfold range. by rewrite length_fmap, length_seq.
  - intros c. unfold range. by rewrite !length_fmap, length_seq.
Qed.

Lemma NoDup_range n : NoDup (range n).
Proof.
  unfold range. apply NoDup_fmap_2_strong; [|apply NoDup_seq].
  intros x y _ _ Heq. lia.
Qed.

Lemma frame_of_NoDup st : NoDup (frame_of st).
Proof.
  unfold frame_of. apply NoDup_bind; [| |apply NoDup_range].
  - intros c1 c2 y _ _ (r1 & -> & _)%list_elem_of_fmap
      (r2 & Heq & _)%list_elem_of_fmap. congruence.
  - intros c _. apply NoDup_fmap_2_strong; [|apply NoDup_range].
    intros r1 r2 _ _ Heq. congruence.
Qed.

(** X17: on a shaped state [draw_grid] never raises; it draws
    [num_rows * num_cols] circles, exactly one for each cell of the
    grid, in the alive colour exactly when the cell of the active buffer
    holds 1. *)
Theorem draw_grid_draws_every_cell st :
  shaped st →
  ∃ frame, draw_grid st = Ok frame ∧
    length frame = (Z.to_nat (num_cols st) * Z.to_nat (num_rows st))%nat ∧
    NoDup frame ∧
    ∀ c r alive, (c, r, alive) ∈ frame ↔
      in_grid st r c ∧
      alive = bool_decide
                (cell_at (grids st) (active_grid st) r c = Some 1).
Proof.
  intros Hst. exists (frame_of st).
  split; [by apply draw_grid_frame|]. split; [apply frame_of_length|].
  split; [apply frame_of_NoDup|].
  intros c r alive. unfold frame_of.
  rewrite list_elem_of_bind.
  assert (Hcell : ∀ r c, in_grid st r c →
            (active_cell st r c =? 1)
            = bool_decide (cell_at (grids st) (active_grid st) r c = Some 1)).
  { intros r' c' [Hr Hc]. destruct Hst as [Hs Ha].
    destruct (cell_at_is_Some _ _ _ (active_grid st) r' c' Hs Ha Hr Hc)
      as (v & Hv).
    unfold active_cell. rewrite Hv. simpl.
    destruct (Z.eqb_spec v 1) as [->|Hne].
    - by rewrite bool_decide_eq_true_2.
    - rewrite bool_decide_eq_false_2; [done|]. congruence. }
  split.
  - intros (c' & Hin & Hc'%elem_of_range).
    apply list_elem_of_fmap in Hin as (r' & Heq & Hr'%elem_of_range).
    simplify_eq. split; [done|]. by apply Hcell.
  - intros [[Hr Hc] ->]. exists c. split; [|by apply elem_of_range].
    apply list_elem_of_fmap. exists r. split; [|by apply elem_of_range].
    by rewrite Hcell.
Qed.

Lemma draw_grid_draws_every_cell_witness :
  shaped lonely ∧
  ∃ frame, draw_grid lonely = Ok frame ∧
    length frame
    = (Z.to_nat (num_cols lonely) * Z.to_nat (num_rows lonely))%nat.
Proof.
  assert (Hst : shaped lonely) by concrete_wf.
  split; [exact Hst|].
  destruct (draw_grid_draws_every_cell lonely Hst) as (frame & E & Hlen & _).
  exists frame. split; [exact E|exact Hlen].
Defined.

End drawing.

(** ** Events and the main loop *)

Section events.
Import Py PyFacts.

(** X18: the index computed by [inactive_grid] is always 0 or 1, even
    from an active index that is neither, and taking it twice gives the
    active index modulo 2 (the index itself when it is 0 or 1). *)
Theorem inactive_grid_twice st :
  (inactive_grid st = 0 ∨ inactive_grid st = 1) ∧
  inactive_grid (with_active_grid (inactive_grid st) st)
  = active_grid st `mod` 2.
Proof.
  split; [apply inactive_grid_range|].
  unfold inactive_grid. simpl. Z.div_mod_to_equations. lia.
Qed.

Lemma with_flags_id st :
  with_game_over (game_over st) (with_paused (paused st) st) = st.
Proof. by destruct st. Qed.

Lemma key_count_cons u ev evs :
  key_count u (ev :: evs)
  = ((if decide (ev = KEYDOWN u) then 1 else 0) + key_count u evs)%nat.
Proof.
  unfold key_count. rewrite filter_cons. by case_decide.
Qed.

Lemma handle_event_key u st :
  u ≠ "r" →
  handle_event (KEYDOWN u) st
  = Ok (with_game_over (game_over st || bool_decide (u = "q"))
          (with_paused (xorb (paused st) (bool_decide (u = "s"))) st)).
Proof.
  intros Hr. unfold handle_event.
  destruct st as [R C gs a p go g]. unfold with_game_over, with_paused.
  cbn [num_rows num_cols grids active_grid paused game_over rng].
  destruct (decide (u = "s")) as [->|Hs].
  { rewrite (bool_decide_eq_true_2 ("s" = "s")) by done.
    rewrite (bool_decide_eq_false_2 ("s" = "q")) by done.
    by rewrite orb_false_r, xorb_true_r. }
  rewrite (bool_decide_eq_false_2 (u = "s")) by done.
  rewrite decide_False by done. rewrite xorb_false_r.
  destruct (decide (u = "q")) as [->|Hq].
  { rewrite (bool_decide_eq_true_2 ("q" = "q")) by done.
    by rewrite orb_true_r. }
  rewrite (bool_decide_eq_false_2 (u = "q")) by done.
  by rewrite orb_false_r.
Qed.

(** The effect of one event other than the key [r] and the window-close
    event. *)
Lemma handle_event_flags ev st :
  ev ≠ QUIT → ev ≠ KEYDOWN "r" →
  handle_event ev st
  = Ok (with_game_over
          (game_over st || bool_decide (ev = KEYDOWN "q"))
          (with_paused
             (xorb (paused st) (bool_decide (ev = KEYDOWN "s"))) st)).
Proof.
  intros Hq Hr. destruct ev as [u| |]; [|done|].
  - rewrite handle_event_key by congruence. do 3 f_equal.
    + apply bool_decide_ext. split; congruence.
    + do 2 f_equal. apply bool_decide_ext. split; congruence.
  - rewrite !bool_decide_eq_false_2 by done.
    rewrite orb_false_r, xorb_false_r. by rewrite with_flags_id.
Qed.

Lemma handle_events_flags evs st :
  QUIT ∉ evs → KEYDOWN "r" ∉ evs →
  handle_events evs st
  = Ok (with_game_over
          (game_over st || bool_decide (KEYDOWN "q" ∈ evs))
          (with_paused
             (xorb (paused st) (Nat.odd (key_count "s" evs))) st)).
Proof.
  revert st. induction evs as [|ev evs IH]; intros st Hq Hr.
  { change (handle_events [] st) with (Ok st).
    rewrite bool_decide_eq_false_2 by apply not_elem_of_nil.
    change (key_count "s" []) with 0%nat. change (Nat.odd 0) with false.
    rewrite orb_false_r, xorb_false_r. by rewrite with_flags_id. }
  apply not_elem_of_cons in Hq as [Hq1 Hq].
  apply not_elem_of_cons in Hr as [Hr1 Hr].
  change (handle_events (ev :: evs) st)
    with (handle_event ev st ≫= handle_events evs).
  rewrite handle_event_flags by done.
  change (Ok ?s ≫= handle_events evs) with (handle_events evs s).
  rewrite IH by done.
  f_equal. destruct st as [R C gs a p go g].
  unfold with_game_over, with_paused.
  cbn [num_rows num_cols grids active_grid paused game_over rng].
  f_equal.
  - rewrite key_count_cons.
    destruct (decide (ev = KEYDOWN "s")) as [->|Hs].
    + rewrite bool_decide_eq_true_2 by done.
      change (1 + key_count "s" evs)%nat with (S (key_count "s" evs)).
      rewrite Nat.odd_succ, <- Nat.negb_odd.
      by destruct p, (Nat.odd _).
    + rewrite bool_decide_eq_false_2 by done.
      change (0 + key_count "s" evs)%nat with (key_count "s" evs).
      by rewrite xorb_false_r.
  - destruct (decide (ev = KEYDOWN "q")) as [->|Hne].
    + rewrite (bool_decide_eq_true_2 (KEYDOWN "q" = KEYDOWN "q")) by done.
      rewrite (bool_decide_eq_true_2 (KEYDOWN "q" ∈ KEYDOWN "q" :: evs))
        by (by left).
      by rewrite !orb_true_r.
    + rewrite (bool_decide_eq_false_2 (ev = KEYDOWN "q")) by done.
      rewrite orb_false_r. f_equal. apply bool_decide_ext.
      rewrite elem_of_cons. split; [by right|].
      intros [Heq|Hin]; [congruence|done].
Qed.

(** X19: a batch of events without the window-close event and without
    the key [r] never raises and changes only the two flags: [paused] is
    flipped once per press of [s], [game_over] is set when [q] was
    pressed, and the buffers, the active index, the dimensions and the
    random stream are untouched. No shape is needed. *)
Theorem handle_events_flags_only evs st :
  QUIT ∉ evs → KEYDOWN "r" ∉ evs →
  handle_events evs st
  = Ok (with_game_over
          (game_over st || bool_decide (KEYDOWN "q" ∈ evs))
          (with_paused
             (xorb (paused st) (Nat.odd (key_count "s" evs))) st)).
Proof. apply handle_events_flags. Qed.

Lemma handle_events_flags_only_witness :
  (QUIT ∉ [KEYDOWN "s"; KEYDOWN "x"; KEYDOWN "s"; OTHER]) ∧
  (KEYDOWN "r" ∉ [KEYDOWN "s"; KEYDOWN "x"; KEYDOWN "s"; OTHER]) ∧
  handle_events [KEYDOWN "s"; KEYDOWN "x"; KEYDOWN "s"; OTHER] crowded
  = Ok crowded.
Proof.
  assert (Hq : QUIT ∉ [KEYDOWN "s"; KEYDOWN "x"; KEYDOWN "s"; OTHER]).
  { repeat (apply not_elem_of_cons; split; [done|]). apply not_elem_of_nil. }
  assert (Hr : KEYDOWN "r" ∉ [KEYDOWN "s"; KEYDOWN "x"; KEYDOWN "s"; OTHER]).
  { repeat (apply not_elem_of_cons; split; [done|]). apply not_elem_of_nil. }
  split; [exact Hq|]. split; [exact Hr|].
  exact (handle_events_flags_only _ crowded Hq Hr).
Defined.

Lemma handle_events_app evs1 evs2 st :
  handle_events (evs1 ++ evs2) st
  = handle_events evs1 st ≫= handle_events evs2.
Proof.
  revert st. induction evs1 as [|ev evs1 IH]; intros st; simpl; [done|].
  destruct (handle_event ev st) as [s|e]; simpl; [apply IH|done].
Qed.

(** X20: on a well-formed state, the window-close event ends the
    handler with [SystemExit] and the events after it are never
    handled. *)
Theorem handle_events_window_close evs1 evs2 st :
  wf st → QUIT ∉ evs1 →
  handle_events (evs1 ++ QUIT :: evs2) st = Raise SystemExit.
Proof.
  intros Hwf Hq. rewrite handle_events_app.
  destruct (handle_events_total evs1 st Hwf Hq) as (s & ->). done.
Qed.

Lemma handle_events_window_close_witness :
  wf crowded ∧ (QUIT ∉ [KEYDOWN "r"]) ∧
  handle_events ([KEYDOWN "r"] ++ QUIT :: [KEYDOWN "s"]) crowded
  = Raise SystemExit.
Proof.
  assert (Hwf : wf crowded) by concrete_wf.
  assert (Hq : QUIT ∉ [KEYDOWN "r"]).
  { apply not_elem_of_cons. split; [done|apply not_elem_of_nil]. }
  split; [exact Hwf|]. split; [exact Hq|].
  exact (handle_events_window_close [KEYDOWN "r"] [KEYDOWN "s"] crowded Hwf Hq).
Defined.

(** X21: on a well-formed state the handler raises nothing but
    [SystemExit], and only when the batch holds a window-close event: no
    key makes it fail with an index error. *)
Theorem handle_events_raises_only_exit evs st e :
  wf st → handle_events evs st = Raise e → e = SystemExit ∧ QUIT ∈ evs.
Proof.
  revert st. induction evs as [|ev evs IH]; intros st Hwf Hrun; [done|].
  simpl in Hrun.
  destruct (decide (ev = QUIT)) as [->|Hne].
  { simpl in Hrun. split; [congruence|by left]. }
  destruct (handle_event_total ev st) as (s & Es); [by destruct Hwf|done|].
  rewrite Es in Hrun. simpl in Hrun.
  destruct (IH s) as [-> Hin]; [by eapply handle_event_wf|done|].
  split; [done|by right].
Qed.

Lemma handle_events_raises_only_exit_witness :
  wf crowded ∧ handle_events [KEYDOWN "s"; QUIT] crowded = Raise SystemExit ∧
  SystemExit = SystemExit ∧ QUIT ∈ [KEYDOWN "s"; QUIT].
Proof.
  assert (Hwf : wf crowded) by concrete_wf.
  assert (Hrun : handle_events [KEYDOWN "s"; QUIT] crowded = Raise SystemExit)
    by reflexivity.
  split; [exact Hwf|]. split; [exact Hrun|].
  exact (handle_events_raises_only_exit _ crowded SystemExit Hwf Hrun).
Defined.

Lemma set_grid_flags value g st st' :
  set_grid value g st = Ok st' →
  game_over st' = game_over st ∧ paused st' = paused st.
Proof.
  unfold set_grid.
  apply (for_each_preserves
           (λ s, game_over s = game_over st ∧ paused s = paused st)); [|done].
  intros r s0 s0' Hs0.
  apply (for_each_preserves
           (λ s, game_over s = game_over st ∧ paused s = paused st)); [|done].
  intros c s s' Hs Hrun.
  destruct value as [v|]; simpl in Hrun;
    destruct (store_cell _ _ _ _ _) as [gs'|]; simpl in Hrun; [|done| |done];
    by simplify_eq.
Qed.

Lemma update_generation_flags st st' :
  update_generation st = Ok st' →
  game_over st' = game_over st ∧ paused st' = paused st.
Proof.
  unfold update_generation. intros H.
  destruct (set_grid _ _ st) as [s1|] eqn:E1; simpl in H; [|done].
  apply set_grid_flags in E1 as [Hg1 Hp1].
  destruct (for_each _ _ s1) as [s2|] eqn:E2; simpl in H; [|done].
  simplify_eq. simpl. rewrite <- Hg1, <- Hp1.
  revert E2.
  apply (for_each_preserves
           (λ s, game_over s = game_over s1 ∧ paused s = paused s1)); [|done].
  intros r s0 s0' Hs0.
  apply (for_each_preserves
           (λ s, game_over s = game_over s1 ∧ paused s = paused s1)); [|done].
  intros c s s' Hs Hrun.
  destruct (check_cell_neighbors r c s) as [v|]; simpl in Hrun; [|done].
  destruct (store_cell _ _ _ _ _) as [gs'|]; simpl in Hrun; [|done].
  by simplify_eq.
Qed.

Lemma handle_event_game_over ev st st' :
  handle_event ev st = Ok st' →
  game_over st' = game_over st || bool_decide (ev = KEYDOWN "q").
Proof.
  intros Hrun. destruct (decide (ev = KEYDOWN "r")) as [->|Hr].
  - rewrite bool_decide_eq_false_2 by done. rewrite orb_false_r.
    simpl in Hrun.
    destruct (set_grid None _ _) as [s1|] eqn:E1; simpl in Hrun; [|done].
    destruct (set_grid (Some 0) _ s1) as [s2|] eqn:E2; simpl in Hrun; [|done].
    destruct (draw_grid s2); simpl in Hrun; [|done]. simplify_eq.
    apply set_grid_flags in E1 as [Hg1 _].
    apply set_grid_flags in E2 as [Hg2 _].
    by rewrite Hg2, Hg1.
  - destruct (decide (ev = QUIT)) as [->|Hq]; [done|].
    rewrite handle_event_flags in Hrun by done. by simplify_eq.
Qed.

Lemma handle_events_game_over evs st st' :
  handle_events evs st = Ok st' →
  game_over st' = game_over st || bool_decide (KEYDOWN "q" ∈ evs).
Proof.
  revert st. induction evs as [|ev evs IH]; intros st Hrun.
  - simpl in Hrun. simplify_eq.
    rewrite bool_decide_eq_false_2 by apply not_elem_of_nil.
    by rewrite orb_false_r.
  - change (handle_events (ev :: evs) st)
      with (handle_event ev st ≫= handle_events evs) in Hrun.
    destruct (handle_event ev st) as [s|] eqn:Es; simpl in Hrun; [|done].
    rewrite (IH s Hrun), (handle_event_game_over ev st s Es).
    rewrite <- orb_assoc. f_equal.
    destruct (decide (ev = KEYDOWN "q")) as [->|Hne].
    + rewrite (bool_decide_eq_true_2 (KEYDOWN "q" = KEYDOWN "q")) by done.
      by rewrite (bool_decide_eq_true_2 (KEYDOWN "q" ∈ KEYDOWN "q" :: evs))
        by (by left).
    + rewrite (bool_decide_eq_false_2 (ev = KEYDOWN "q")) by done.
      simpl. apply bool_decide_ext.
      rewrite elem_of_cons. split; [by right|].
      intros [Heq|Hin]; [congruence|done].
Qed.

Lemma tick_game_over_eq evs st st' :
  tick evs st = Ok st' →
  game_over st' = game_over st || bool_decide (KEYDOWN "q" ∈ evs).
Proof.
  unfold tick. intros H.
  destruct (handle_events evs st) as [s1|] eqn:E1; simpl in H; [|done].
  rewrite <- (handle_events_game_over evs st s1 E1).
  destruct (paused s1); [by simplify_eq|].
  destruct (update_generation s1) as [s2|] eqn:E2; simpl in H; [|done].
  destruct (draw_grid s2); simpl in H; [|done]. simplify_eq.
  by apply update_generation_flags in E2 as [-> _].
Qed.

(** X22: whatever the state, when an iteration of [run] completes,
    [game_over] holds afterwards exactly when it held before or the key
    [q] was among the events: nothing clears it and nothing else sets
    it. *)
Theorem tick_game_over evs st st' :
  tick evs st = Ok st' →
  game_over st' = game_over st || bool_decide (KEYDOWN "q" ∈ evs).
Proof. apply tick_game_over_eq. Qed.

Lemma tick_game_over_witness :
  tick [KEYDOWN "q"] lonely
  = Ok (with_game_over true (with_active_grid 1 (with_grids
          [ [[0; 0; 0]; [0; 1; 0]; [0; 0; 0]];
            [[0; 0; 0]; [0; 0; 0]; [0; 0; 0]] ] lonely))) ∧
  true = game_over lonely || bool_decide (KEYDOWN "q" ∈ [KEYDOWN "q"]).
Proof.
  assert (Hrun : tick [KEYDOWN "q"] lonely
    = Ok (with_game_over true (with_active_grid 1 (with_grids
          [ [[0; 0; 0]; [0; 1; 0]; [0; 0; 0]];
            [[0; 0; 0]; [0; 0; 0]; [0; 0; 0]] ] lonely)))) by reflexivity.
  split; [exact Hrun|].
  exact (tick_game_over [KEYDOWN "q"] lonely _ Hrun).
Defined.

(** X23: from a reachable state that is not over, an iteration whose
    events hold the key [q] and no window-close event runs to its end
    (the generation still advances unless the game is paused), and [run]
    returns at the test that follows, whatever events would come
    next. *)
Theorem run_returns_after_quit_key evs st :
  reachable st → game_over st = false →
  QUIT ∉ evs → KEYDOWN "q" ∈ evs →
  ∃ st', tick evs st = Ok st' ∧ game_over st' = true ∧
    ∀ rest, run (evs :: rest) st = Ok (Returned st').
Proof.
  intros Hre Hgo Hq Hkey.
  destruct (tick_total evs st Hre Hq) as (st' & E).
  assert (Hgo' : game_over st' = true).
  { rewrite (tick_game_over_eq evs st st' E).
    rewrite bool_decide_eq_true_2 by done. by rewrite orb_true_r. }
  exists st'. split; [done|]. split; [done|].
  intros rest. simpl. rewrite Hgo, E. simpl.
  destruct rest; simpl; by rewrite Hgo'.
Qed.

Lemma run_returns_after_quit_key_witness :
  reachable crowded ∧ game_over crowded = false ∧
  (QUIT ∉ [KEYDOWN "q"]) ∧ KEYDOWN "q" ∈ [KEYDOWN "q"] ∧
  ∃ st', tick [KEYDOWN "q"] crowded = Ok st' ∧ game_over st' = true ∧
    ∀ rest, run ([KEYDOWN "q"] :: rest) crowded = Ok (Returned st').
Proof.
  assert (Hq : QUIT ∉ [KEYDOWN "q"]).
  { apply not_elem_of_cons. split; [done|apply not_elem_of_nil]. }
  assert (Hkey : KEYDOWN "q" ∈ [KEYDOWN "q"]) by (by left).
  split; [exact crowded_reachable|]. split; [reflexivity|].
  split; [exact Hq|]. split; [exact Hkey|].
  exact (run_returns_after_quit_key [KEYDOWN "q"] crowded
           crowded_reachable eq_refl Hq Hkey).
Defined.

(** X24: from a reachable state that is not over, [run] is still
    looping, in a reachable state, after any number of iterations whose
    events hold neither the key [q] nor the window-close event: it never
    returns and never raises on its own. *)
Theorem run_keeps_looping batches st :
  reachable st → game_over st = false →
  Forall (λ evs, (QUIT ∉ evs) ∧ (KEYDOWN "q" ∉ evs)) batches →
  ∃ st', run batches st = Ok (Looping st') ∧
         reachable st' ∧ game_over st' = false.
Proof.
  revert st. induction batches as [|evs batches IH]; intros st Hre Hgo Hall.
  - exists st. simpl. by rewrite Hgo.
  - apply Forall_cons in Hall as [[Hq Hkey] Hall].
    destruct (tick_total evs st Hre Hq) as (s & E).
    assert (Hgo' : game_over s = false).
    { rewrite (tick_game_over_eq evs st s E), Hgo.
      by rewrite bool_decide_eq_false_2. }
    destruct (IH s) as (st' & Erun & Hre' & Hgo''); [|done|done|].
    { by eapply tick_reachable. }
    exists st'. simpl. rewrite Hgo, E. simpl. done.
Qed.

Lemma run_keeps_looping_witness :
  reachable crowded ∧ game_over crowded = false ∧
  Forall (λ evs, (QUIT ∉ evs) ∧ (KEYDOWN "q" ∉ evs)) [[KEYDOWN "s"]; []] ∧
  ∃ st', run [[KEYDOWN "s"]; []] crowded = Ok (Looping st') ∧
         reachable st' ∧ game_over st' = false.
Proof.
  assert (Hall : Forall (λ evs, (QUIT ∉ evs) ∧ (KEYDOWN "q" ∉ evs))
                   [[KEYDOWN "s"]; []]).
  { repeat constructor;
      first [ apply not_elem_of_nil
            | apply not_elem_of_cons; split; [done|apply not_elem_of_nil] ]. }
  split; [exact crowded_reachable|]. split; [reflexivity|].
  split; [exact Hall|].
  exact (run_keeps_looping _ crowded crowded_reachable eq_refl Hall).
Defined.

(** X25: while the game stays paused, an iteration of [run] whose
    events hold neither the key [r] nor the window-close event leaves
    the buffers, the active index and the random stream as they are: no
    generation is computed. *)
Theorem tick_paused_keeps_grid evs st :
  QUIT ∉ evs → KEYDOWN "r" ∉ evs →
  xorb (paused st) (Nat.odd (key_count "s" evs)) = true →
  ∃ st', tick evs st = Ok st' ∧ paused st' = true ∧
    grids st' = grids st ∧ active_grid st' = active_grid st ∧
    rng st' = rng st.
Proof.
  intros Hq Hr Hp. unfold tick.
  rewrite handle_events_flags by done. simpl. rewrite Hp.
  eexists. split; [done|]. by simpl.
Qed.

Lemma tick_paused_keeps_grid_witness :
  (QUIT ∉ [KEYDOWN "s"]) ∧ (KEYDOWN "r" ∉ [KEYDOWN "s"]) ∧
  xorb (paused crowded) (Nat.odd (key_count "s" [KEYDOWN "s"])) = true ∧
  ∃ st', tick [KEYDOWN "s"] crowded = Ok st' ∧ paused st' = true ∧
    grids st' = grids crowded.
Proof.
  assert (Hq : QUIT ∉ [KEYDOWN "s"]).
  { apply not_elem_of_cons. split; [done|apply not_elem_of_nil]. }
  assert (Hr : KEYDOWN "r" ∉ [KEYDOWN "s"]).
  { apply not_elem_of_cons. split; [done|apply not_elem_of_nil]. }
  assert (Hp : xorb (paused crowded) (Nat.odd (key_count "s" [KEYDOWN "s"]))
               = true) by reflexivity.
  split; [exact Hq|]. split; [exact Hr|]. split; [exact Hp|].
  destruct (tick_paused_keeps_grid [KEYDOWN "s"] crowded Hq Hr Hp)
    as (st' & E & Hpa & Hg & _).
  exists st'. split; [exact E|]. split; [exact Hpa|exact Hg].
Defined.

End events.

(** ** Negative buffer selectors *)

Section selectors.
Import Py PyFacts.

Lemma for_each_ext_inv {St} (I : St → Prop) xs
    (body1 body2 : Z → St → result St) (s : St) :
  I s →
  (∀ x s, I s → body1 x s = body2 x s) →
  (∀ x s s', I s → body2 x s = Ok s' → I s') →
  for_each xs body1 s = for_each xs body2 s.
Proof.
  intros Hs Heq Hpres. revert s Hs.
  induction xs as [|x xs IH]; intros s Hs; simpl; [done|].
  rewrite Heq by done.
  destruct (body2 x s) as [s'|e] eqn:E; simpl; [|done].
  apply IH. by eapply Hpres.
Qed.

Lemma store_cell_negative_selector gs g r c v :
  length gs = 2%nat → g = 0 ∨ g = 1 →
  store_cell gs (g - 2) r c v = store_cell gs g r c v.
Proof.
  intros Hlen Hg.
  assert (Hnorm : norm (len gs) (g - 2) = norm (len gs) g).
  { unfold len. rewrite Hlen.
    rewrite norm_neg, norm_nonneg by lia. f_equal. lia. }
  unfold store_cell, getitem, setitem. rewrite Hnorm.
  destruct (norm (len gs) g) as [k|]; [|done].
  destruct (gs !! k) as [buf|]; [|done]. simpl.
  destruct (norm (len buf) r) as [kr|]; [|done]. simpl.
  destruct (buf !! kr) as [row|]; [|done]. simpl.
  destruct (norm (len row) c) as [kc|]; done.
Qed.

Lemma store_cell_length gs g r c v gs' :
  store_cell gs g r c v = Ok gs' → length gs' = length gs.
Proof.
  intros (kg & kr & kc & _ & _ & _ & _ & _ & _ & _ & ->)%store_cell_Ok.
  unfold upd. by rewrite length_alter.
Qed.

(** X26: the buffer selector of [set_grid] follows Python's negative
    indexing: with two buffers, selector -1 fills buffer 1 and selector
    -2 fills buffer 0, with the same result and the same exceptions as
    the non-negative selector. *)
Theorem set_grid_negative_selector st value g :
  length (grids st) = 2%nat → g = 0 ∨ g = 1 →
  set_grid value (g - 2) st = set_grid value g st.
Proof.
  intros Hlen Hg. unfold set_grid.
  apply (for_each_ext_inv (λ s, length (grids s) = 2%nat)); [done| |].
  - intros r s Hs.
    apply (for_each_ext_inv (λ s, length (grids s) = 2%nat)); [done| |].
    + intros c s0 Hs0. destruct value as [v|]; simpl;
        by rewrite store_cell_negative_selector.
    + intros c s0 s0' Hs0 Hrun. destruct value as [v|]; simpl in Hrun;
        destruct (store_cell _ _ _ _ _) as [gs'|] eqn:E; simpl in Hrun;
        try done; simplify_eq; simpl;
        by rewrite (store_cell_length _ _ _ _ _ _ E).
  - intros r s s' Hs.
    apply (for_each_preserves (λ s, length (grids s) = 2%nat)); [|done].
    intros c s0 s0' Hs0 Hrun. destruct value as [v|]; simpl in Hrun;
      destruct (store_cell _ _ _ _ _) as [gs'|] eqn:E; simpl in Hrun;
      try done; simplify_eq; simpl;
      by rewrite (store_cell_length _ _ _ _ _ _ E).
Qed.

Lemma set_grid_negative_selector_witness :
  length (grids crowded) = 2%nat ∧ (1 = 0 ∨ 1 = 1) ∧
  set_grid (Some 1) (1 - 2) crowded = set_grid (Some 1) 1 crowded.
Proof.
  assert (Hlen : length (grids crowded) = 2%nat) by reflexivity.
  assert (Hg : 1 = 0 ∨ 1 = 1) by (right; reflexivity).
  split; [exact Hlen|]. split; [exact Hg|].
  exact (set_grid_negative_selector crowded (Some 1) 1 Hlen Hg).
Defined.

End selectors.
